(** * lambda-ci: a shallow embedding of [lambda-ci.go]

    The tool walks the working directory for [.function.yaml] descriptors,
    and for each one compiles the referenced Go file, zips the binary and
    uploads it to AWS Lambda.  The embedding follows the source function
    by function: the Go standard-library calls the source makes
    ([strings.Replace], [filepath.Walk], [os.Remove], ...) are modelled on
    an in-memory world, the collaborators the source treats as black
    boxes (the YAML reader, the [go] tool, the zip codec, the Lambda API)
    are the fields of a type class [Env]. *)

From Stdlib Require Import ZArith.
From Stdlib.Strings Require Import Ascii Byte.
From stdpp Require Import base option list strings gmap countable.

Local Open Scope Z_scope.

(** ** Go's [strings] and path helpers *)

Module GoStrings.

(** [strings.HasPrefix(s, prefix)]. *)
Fixpoint HasPrefix (s pre : string) : bool :=
  match pre, s with
  | EmptyString, _ => true
  | String _ _, EmptyString => false
  | String a pre', String b s' => if decide (a = b) then HasPrefix s' pre' else false
  end.

(** [s[n:]] for [n <= len(s)]. *)
Fixpoint drop (n : nat) (s : string) : string :=
  match n, s with
  | O, _ => s
  | S _, EmptyString => EmptyString
  | S n', String _ s' => drop n' s'
  end.

(** [strings.Replace(s, old, new, n)] for a count [n >= 0]: the first
    [n] non-overlapping instances of [old], scanning from the left, are
    replaced by [new].  The source only calls it with a non-empty [old]. *)
Fixpoint Replace (n : nat) (old new s : string) : string :=
  match n with
  | O => s
  | S n' =>
      (fix scan (s : string) : string :=
         if HasPrefix s old
         then new +:+ Replace n' old new (drop (String.length old) s)
         else match s with
              | EmptyString => EmptyString
              | String c s' => String c (scan s')
              end) s
  end.

(** [strings.Compare(a, b)]: -1, 0 or +1 by byte-wise lexicographic order. *)
Definition Compare (a b : string) : Z :=
  match String.compare a b with
  | Eq => 0
  | Lt => -1
  | Gt => 1
  end.

(** [os.basename], which [File.Stat] uses for [FileInfo.Name()].
    First loop: trailing slashes are cut, but never the first byte
    ([for ; i > 0 && name[i] == '/'; i--]). *)
Fixpoint trim_trailing (s : string) : string :=
  match s with
  | EmptyString => EmptyString
  | String c s' =>
      match trim_trailing s' with
      | EmptyString => if decide (c = "/"%char) then EmptyString else String c EmptyString
      | String d t => String c (String d t)
      end
  end.

Definition trim_slashes (name : string) : string :=
  match name with
  | EmptyString => EmptyString
  | String c s' => String c (trim_trailing s')
  end.

(** Second loop: the name is cut after its last ['/'], the scan starting
    one byte before the end ([for i--; i >= 0; i--]), so the final byte
    is never inspected.  [acc] holds the component read so far, reversed. *)
Fixpoint after_last_slash (acc s : string) : string :=
  match s with
  | EmptyString => String.rev acc
  | String c s' =>
      match s' with
      | EmptyString => String.rev (String c acc)
      | String _ _ =>
          if decide (c = "/"%char) then after_last_slash EmptyString s'
          else after_last_slash (String c acc) s'
      end
  end.

Definition basename (name : string) : string :=
  after_last_slash EmptyString (trim_slashes name).

(** [sub] occurs in [s]. *)
Definition contains (s sub : string) : Prop :=
  exists pre post, s = pre +:+ sub +:+ post.

End GoStrings.

(** ** Errors and results *)

(** Go's [error] values as the program meets them.  [SkipDir] is the
    sentinel of [path/filepath]; the others are tagged by their origin. *)
Inductive error : Type :=
| SkipDir
| PathError (op path msg : string)   (* *os.PathError *)
| YamlError (msg : string)           (* gopkg.in/yaml.v2 *)
| ExecError (msg : string)           (* *exec.ExitError, *exec.Error *)
| ZipError (msg : string)            (* archive/zip *)
| AwsError (msg : string).           (* awserr.Error *)

Global Instance error_eq_dec : EqDecision error.
Proof. solve_decision. Defined.

(** A Go pair [(T, error)]: the value when [err == nil], else the error. *)
Inductive result (A : Type) : Type :=
| Ok (a : A)
| Err (e : error).
Global Arguments Ok {A} a.
Global Arguments Err {A} e.

(** ** Control: return, panic and [os.Exit]

    A Go call ends in one of three ways: it returns, it panics (the
    panic unwinds the stack and runs deferred calls on the way), or the
    process is gone because somebody called [os.Exit] (deferred calls are
    not run).  [logrus]'s [Fatal] family logs and then calls [os.Exit(1)]. *)
Inductive outcome (A : Type) : Type :=
| Returned (a : A)
| Panicked (msg : string)
| Exited (code : Z).
Global Arguments Returned {A} a.
Global Arguments Panicked {A} msg.
Global Arguments Exited {A} code.

(** A computation over a mutable state [S]. *)
Definition Proc (S A : Type) : Type := S -> outcome A * S.

Global Instance Proc_ret {S} : MRet (Proc S) := fun A (a : A) s => (Returned a, s).

Global Instance Proc_bind {S} : MBind (Proc S) :=
  fun A B (k : A -> Proc S B) (m : Proc S A) s =>
    match m s with
    | (Returned a, s') => k a s'
    | (Panicked msg, s') => (Panicked msg, s')
    | (Exited c, s') => (Exited c, s')
    end.

Definition panic {S A} (msg : string) : Proc S A := fun s => (Panicked msg, s).
Definition os_Exit {S A} (code : Z) : Proc S A := fun s => (Exited code, s).
Definition get {S} : Proc S S := fun s => (Returned s, s).
Definition modify {S} (f : S -> S) : Proc S unit := fun s => (Returned tt, f s).

(** [*p] for a pointer that may be nil. *)
Definition deref {S A} (p : option A) : Proc S A :=
  match p with
  | Some a => mret a
  | None => panic "invalid memory address or nil pointer dereference"
  end.

(** ** [os.FileInfo] *)

Record FileInfo : Type := mkFileInfo {
  fi_Name : string;   (* base name of the file *)
  fi_Size : Z;
  fi_IsDir : bool;
}.

(** ** Discovery: [filepath.Walk] and [findFunctionConfigs] *)

Module Discovery.

Local Unset Elimination Schemes.

(** What [os.Lstat] and [readDirNames] report below a root.  A [Node]
    is an entry whose [Lstat] succeeds; when it is a directory, [ents]
    is the outcome of reading it (the children in the order
    [readDirNames] gives them, or the error message).  [ents] is never
    looked at for a non-directory.  [Broken] is an entry whose [Lstat]
    fails. *)
Inductive node : Type :=
| Node (info : FileInfo) (ents : string + list node)
| Broken (name msg : string).
Local Set Elimination Schemes.

Definition node_name (n : node) : string :=
  match n with
  | Node info _ => fi_Name info
  | Broken name _ => name
  end.

(** [filepath.Join(path, name)] for a clean [path] and a directory entry
    [name]: one separator between them, none added after the root. *)
Definition Join (path name : string) : string :=
  if decide (path = "/") then "/" +:+ name else path +:+ "/" +:+ name.

Section Walk.
Context {S : Type}.
(** [filepath.WalkFunc]: [info] is nil exactly when [Lstat] failed. *)
Variable walkFn : string -> option FileInfo -> option error -> Proc S (option error).

(** [filepath.walk], and for a [Broken] root the call [fn(root, nil, err)]
    that [filepath.Walk] makes in its place. *)
Fixpoint walk (path : string) (n : node) : Proc S (option error) :=
  match n with
  | Broken _ msg => walkFn path None (Some (PathError "lstat" path msg))
  | Node info ents =>
      if negb (fi_IsDir info) then walkFn path (Some info) None
      else
        let err := match ents with
                   | inl msg => Some (PathError "open" path msg)
                   | inr _ => None
                   end in
        err1 ← walkFn path (Some info) err;
        match ents, err1 with
        | inr names, None =>
            (fix range (names : list node) : Proc S (option error) :=
               match names with
               | [] => mret None
               | c :: rest =>
                   let filename := Join path (node_name c) in
                   match c with
                   | Broken _ msg =>
                       err ← walkFn filename None (Some (PathError "lstat" filename msg));
                       match err with
                       | Some e => if decide (e = SkipDir) then range rest else mret (Some e)
                       | None => range rest
                       end
                   | Node fileInfo _ =>
                       err ← walk filename c;
                       match err with
                       | Some e =>
                           if negb (fi_IsDir fileInfo) || bool_decide (e ≠ SkipDir)
                           then mret (Some e) else range rest
                       | None => range rest
                       end
                   end
               end) names
        | _, _ => mret err1
        end
  end.

(** [filepath.Walk(root, fn)]. *)
Definition Walk (root : string) (tree : node) : Proc S (option error) :=
  err ← walk root tree;
  match err with
  | Some e => if decide (e = SkipDir) then mret None else mret (Some e)
  | None => mret None
  end.
End Walk.

(** The [for _, name := range names] loop of [walk], by name. *)
Definition walk_range {S : Type}
    (walkFn : string -> option FileInfo -> option error -> Proc S (option error))
    (path : string) : list node -> Proc S (option error) :=
  fix range (names : list node) : Proc S (option error) :=
    match names with
    | [] => mret None
    | c :: rest =>
        let filename := Join path (node_name c) in
        match c with
        | Broken _ msg =>
            err ← walkFn filename None (Some (PathError "lstat" filename msg));
            match err with
            | Some e => if decide (e = SkipDir) then range rest else mret (Some e)
            | None => range rest
            end
        | Node fileInfo _ =>
            err ← walk walkFn filename c;
            match err with
            | Some e =>
                if negb (fi_IsDir fileInfo) || bool_decide (e ≠ SkipDir)
                then mret (Some e) else range rest
            | None => range rest
            end
        end
    end.

(** The closure passed to [filepath.Walk]; its state is the captured
    slice [files]. *)
Definition visit (path : string) (info : option FileInfo) (err : option error)
  : Proc (list string) (option error) :=
  match err with
  | Some e => mret (Some e)
  | None =>
      info ← deref info;
      if decide (GoStrings.Compare (fi_Name info) ".function.yaml" = 0)
      then modify (fun files => files ++ [path]);; mret None
      else mret None
  end.

(** [findFunctionConfigs(root)], run on the tree found at [root]. *)
Definition findFunctionConfigs (root : string) (tree : node) : outcome (result (list string)) :=
  match Walk visit root tree [] with
  | (Returned (Some e), _) => Returned (Err e)
  | (Returned None, files) => Returned (Ok files)
  | (Panicked msg, _) => Panicked msg
  | (Exited c, _) => Exited c
  end.

(** *** What discovery is to find *)

(** Every entry of the subtree found at [path], the root first and the
    children of a directory in reading order, each with its full path
    and its base name. *)
Fixpoint entries (path : string) (n : node) : list (string * string) :=
  match n with
  | Broken name _ => [(path, name)]
  | Node info ents =>
      (path, fi_Name info) ::
      match fi_IsDir info, ents with
      | true, inr kids =>
          (fix each (l : list node) : list (string * string) :=
             match l with
             | [] => []
             | c :: l' => entries (Join path (node_name c)) c ++ each l'
             end) kids
      | _, _ => []
      end
  end.

Definition is_marker (pn : string * string) : Prop := pn.2 = ".function.yaml".

Global Instance is_marker_dec pn : Decision (is_marker pn).
Proof. unfold is_marker. apply _. Defined.

Definition marker_paths (path : string) (n : node) : list string :=
  (filter is_marker (entries path n)).*1.

(** No [Lstat] in the subtree fails and every directory can be read. *)
Fixpoint readable (n : node) : bool :=
  match n with
  | Broken _ _ => false
  | Node info ents =>
      match fi_IsDir info, ents with
      | false, _ => true
      | true, inl _ => false
      | true, inr kids =>
          (fix all (l : list node) : bool :=
             match l with
             | [] => true
             | c :: l' => readable c && all l'
             end) kids
      end
  end.

(** The entries below a directory, and whether all of them are readable. *)
Definition entries_below (path : string) : list node -> list (string * string) :=
  fix each (l : list node) : list (string * string) :=
    match l with
    | [] => []
    | c :: l' => entries (Join path (node_name c)) c ++ each l'
    end.

Definition all_readable : list node -> bool :=
  fix all (l : list node) : bool :=
    match l with
    | [] => true
    | c :: l' => readable c && all l'
    end.

End Discovery.

(** ** Data of the program and of the libraries it calls *)

(** [type functionConfig struct]; [Path] carries the tag [yaml:"-"]. *)
Record functionConfig : Type := mkFunctionConfig {
  Name : string;
  FileName : string;
  Path : string;
}.

(** The zero value that [var function functionConfig] declares. *)
Definition zero_functionConfig : functionConfig :=
  {| Name := ""; FileName := ""; Path := "" |}.

Local Unset Elimination Schemes.

(** A parsed YAML document, as far as decoding into [functionConfig]
    looks at it. *)
Inductive yaml : Type :=
| YNull
| YScalar (s : string)
| YSeq (items : list yaml)
| YMap (kvs : list (string * yaml)).
Local Set Elimination Schemes.

(** The shape a descriptor is expected to have: a mapping (or an empty
    document) in which [name] and [fileName], where present, are scalars
    or null.  Other keys may hold anything. *)
Definition field_shape (v : yaml) : bool :=
  match v with
  | YScalar _ | YNull => true
  | YSeq _ | YMap _ => false
  end.

Definition descriptor_shape (doc : yaml) : bool :=
  match doc with
  | YNull => true
  | YMap kvs =>
      forallb (fun kv : string * yaml =>
                 if decide (kv.1 = "name" \/ kv.1 = "fileName") then field_shape kv.2 else true) kvs
  | YScalar _ | YSeq _ => false
  end.

(** The text a key of a mapping stands for: that of its last occurrence,
    the empty string when the key is absent or null. *)
Definition scalar_text (v : yaml) : string :=
  match v with
  | YScalar s => s
  | _ => ""
  end.

Definition field_value (key : string) (kvs : list (string * yaml)) : string :=
  default "" (list.last (omap (fun kv : string * yaml =>
                            if decide (kv.1 = key) then Some (scalar_text kv.2) else None) kvs)).

(** The value a field ends with: the last occurrence of its key, or
    what it started with. *)
Definition field_after (key : string) (kvs : list (string * yaml)) (start : string) : string :=
  default start (list.last (omap (fun kv : string * yaml =>
                               if decide (kv.1 = key) then Some (scalar_text kv.2) else None) kvs)).

(** [zip.FileHeader], the fields the program sets or that are read back. *)
Record FileHeader : Type := mkFileHeader {
  fh_Name : string;
  fh_Method : Z;
  fh_UncompressedSize64 : Z;
}.

Definition zip_Store : Z := 0.
Definition zip_Deflate : Z := 8.

(** One member of an archive: its header and its uncompressed content. *)
Definition zip_entry : Type := FileHeader * list byte.

(** [lambda.UpdateFunctionCodeInput]; every field is a pointer or a
    slice, nil unless set. *)
Record UpdateFunctionCodeInput : Type := mkUpdateFunctionCodeInput {
  ufc_DryRun : option bool;
  ufc_FunctionName : option string;
  ufc_Publish : option bool;
  ufc_RevisionId : option string;
  ufc_S3Bucket : option string;
  ufc_S3Key : option string;
  ufc_S3ObjectVersion : option string;
  ufc_ZipFile : option (list byte);
}.

(** [lambda.UpdateFunctionConfigurationInput]; the nested structures
    ([DeadLetterConfig], [Environment], ...) only matter as set or nil. *)
Record UpdateFunctionConfigurationInput : Type := mkUpdateFunctionConfigurationInput {
  ufg_DeadLetterConfig : option string;
  ufg_Description : option string;
  ufg_Environment : option (list (string * string));
  ufg_FunctionName : option string;
  ufg_Handler : option string;
  ufg_KMSKeyArn : option string;
  ufg_Layers : option (list string);
  ufg_MemorySize : option Z;
  ufg_RevisionId : option string;
  ufg_Role : option string;
  ufg_Runtime : option string;
  ufg_Timeout : option Z;
  ufg_TracingConfig : option string;
  ufg_VpcConfig : option string;
}.

(** [lambda.FunctionConfiguration], the two fields the program reads. *)
Record FunctionConfiguration : Type := mkFunctionConfiguration {
  fc_FunctionName : option string;
  fc_Handler : option string;
}.

(** The calls the program makes on the outside, in the order made. *)
Inductive event : Type :=
| EvReadFile (path : string)
| EvExec (name : string) (args : list string)
| EvCreate (path : string)
| EvOpen (path : string)
| EvRemove (path : string)
| EvUpdateFunctionCode (input : UpdateFunctionCodeInput)
| EvUpdateFunctionConfiguration (input : UpdateFunctionConfigurationInput)
| EvInfo (msg : string)
| EvFatal (msg : string) (err : error).

(** The configuration-update requests among the calls of a log. *)
Definition configuration_requests (log : list event) : list UpdateFunctionConfigurationInput :=
  omap (fun ev => match ev with
                  | EvUpdateFunctionConfiguration input => Some input
                  | _ => None
                  end) log.

(** ** The collaborators

    What the source consumes as black boxes.  [yaml_parse] is the YAML
    reader ([inl] is a syntax error); [exec_Run] is the subprocess, which
    may change files and reports its exit; [os_Create_refused] tells when
    creating a file fails; [zip_encode] is the byte layout the zip writer
    produces; [session_NewSession] and the two [lambda_] operations are
    the AWS SDK over a remote state [Remote]. *)
Class Env : Type := mkEnv {
  yaml_parse : list byte -> string + yaml;
  exec_Run : string -> list string -> gmap string (list byte)
             -> option error * gmap string (list byte);
  os_Create_refused : string -> gmap string (list byte) -> option string;
  zip_encode : list zip_entry -> list byte;
  session_NewSession : option error;
  Remote : Type;
  lambda_UpdateFunctionCode :
    UpdateFunctionCodeInput -> Remote -> result FunctionConfiguration * Remote;
  lambda_UpdateFunctionConfiguration :
    UpdateFunctionConfigurationInput -> Remote -> result FunctionConfiguration * Remote;
}.

(** ** The world the process runs in *)

Section Pipeline.
Context {E : Env}.

(** [w_cwd]: what [os.Getwd] answers.  [w_tree]: the directory tree
    [filepath.Walk] sees there.  [w_files]: the regular files by path.
    [w_zip]: the open [zip.Writer]s, by the path of the file they write
    to, each with the entries written so far.  [w_remote]: the state of
    the function platform.  [w_log]: the calls made so far. *)
Record world : Type := mkWorld {
  w_cwd : result string;
  w_tree : Discovery.node;
  w_files : gmap string (list byte);
  w_zip : gmap string (list zip_entry);
  w_remote : Remote;
  w_log : list event;
}.

Definition set_files (f : gmap string (list byte) -> gmap string (list byte)) (w : world) : world :=
  mkWorld (w_cwd w) (w_tree w) (f (w_files w)) (w_zip w) (w_remote w) (w_log w).
Definition set_zip (f : gmap string (list zip_entry) -> gmap string (list zip_entry)) (w : world) : world :=
  mkWorld (w_cwd w) (w_tree w) (w_files w) (f (w_zip w)) (w_remote w) (w_log w).
Definition set_remote (r : Remote) (w : world) : world :=
  mkWorld (w_cwd w) (w_tree w) (w_files w) (w_zip w) r (w_log w).
Definition add_log (ev : event) (w : world) : world :=
  mkWorld (w_cwd w) (w_tree w) (w_files w) (w_zip w) (w_remote w) (w_log w ++ [ev]).

Abbreviation M := (Proc world).

Definition emit (ev : event) : M unit := modify (add_log ev).

(** [if err != nil { return err }] around a call that returns a pair. *)
Definition try {A B} (m : M (result A)) (k : A -> M (result B)) : M (result B) :=
  r ← m;
  match r with
  | Ok a => k a
  | Err e => mret (Err e)
  end.

(** [defer d] followed by the rest of the function body: [d] runs when
    the rest returns or panics, and does not run when the process has
    exited.  A panic in [d] replaces the pending result. *)
Definition deferred {A} (d : M unit) (rest : M A) : M A :=
  fun w =>
    match rest w with
    | (Exited c, w') => (Exited c, w')
    | (o, w') =>
        match d w' with
        | (Returned _, w'') => (o, w'')
        | (Panicked msg, w'') => (Panicked msg, w'')
        | (Exited c, w'') => (Exited c, w'')
        end
    end.

(** *** [logrus] *)

Definition logrus_Infof (msg : string) : M unit := emit (EvInfo msg).

(** [logrus.WithError(err).Fatalf(...)]: the entry is logged, then
    [os.Exit(1)]. *)
Definition logrus_Fatalf {A} (err : error) (msg : string) : M A :=
  emit (EvFatal msg err);; os_Exit 1.

(** *** [os], [io/ioutil], [os/exec] *)

Definition not_exist (op path : string) : error :=
  PathError op path "no such file or directory".

Definition ioutil_ReadFile (path : string) : M (result (list byte)) :=
  emit (EvReadFile path);;
  w ← get;
  match w_files w !! path with
  | Some data => mret (Ok data)
  | None => mret (Err (not_exist "open" path))
  end.

Definition os_Remove (path : string) : M (result unit) :=
  emit (EvRemove path);;
  w ← get;
  match w_files w !! path with
  | Some _ => modify (set_files (delete path));; mret (Ok tt)
  | None => mret (Err (not_exist "remove" path))
  end.

(** [os.Create]: the file is created or truncated; the handle is its path. *)
Definition os_Create (path : string) : M (result string) :=
  emit (EvCreate path);;
  w ← get;
  match os_Create_refused path (w_files w) with
  | Some msg => mret (Err (PathError "open" path msg))
  | None => modify (set_files (insert path []));; mret (Ok path)
  end.

Definition os_Open (path : string) : M (result string) :=
  emit (EvOpen path);;
  w ← get;
  match w_files w !! path with
  | Some _ => mret (Ok path)
  | None => mret (Err (not_exist "open" path))
  end.

Definition File_Stat (f : string) : M (result FileInfo) :=
  w ← get;
  match w_files w !! f with
  | Some data =>
      mret (Ok {| fi_Name := GoStrings.basename f;
                  fi_Size := Z.of_nat (length data);
                  fi_IsDir := false |})
  | None => mret (Err (not_exist "stat" f))
  end.

Definition File_Close (f : string) : M unit := mret tt.

(** [exec.Command(name, args...).Run()]. *)
Definition exec_Command_Run (name : string) (args : list string) : M (result unit) :=
  emit (EvExec name args);;
  w ← get;
  let '(err, files) := exec_Run name args (w_files w) in
  modify (set_files (fun _ => files));;
  match err with
  | Some e => mret (Err e)
  | None => mret (Ok tt)
  end.

(** *** [archive/zip], [io] *)

Definition zip_NewWriter (f : string) : M string :=
  modify (set_zip (insert f []));; mret f.

Definition zip_FileInfoHeader (fi : FileInfo) : result FileHeader :=
  Ok {| fh_Name := fi_Name fi;
        fh_Method := zip_Store;
        fh_UncompressedSize64 := fi_Size fi |}.

Definition zip_closed : error := ZipError "write to closed writer".

(** [w.CreateHeader(fh)]: a new entry, empty so far; the returned
    [io.Writer] is named by the archive it belongs to. *)
Definition Writer_CreateHeader (zw : string) (fh : FileHeader) : M (result string) :=
  w ← get;
  match w_zip w !! zw with
  | Some entries => modify (set_zip (insert zw (entries ++ [(fh, [])])));; mret (Ok zw)
  | None => mret (Err zip_closed)
  end.

Definition append_last (data : list byte) (entries : list zip_entry) : list zip_entry :=
  match reverse entries with
  | [] => []
  | (fh, body) :: before => reverse ((fh, body ++ data) :: before)
  end.

(** [io.Copy(dst, src)] from an open file into the entry being written. *)
Definition io_Copy (dst src : string) : M (result Z) :=
  w ← get;
  match w_files w !! src, w_zip w !! dst with
  | Some data, Some entries =>
      modify (set_zip (insert dst (append_last data entries)));;
      mret (Ok (Z.of_nat (length data)))
  | None, _ => mret (Err (not_exist "read" src))
  | _, None => mret (Err zip_closed)
  end.

(** [w.Close()]: the archive is finished and flushed to its file. *)
Definition Writer_Close (zw : string) : M unit :=
  w ← get;
  match w_zip w !! zw with
  | Some entries =>
      modify (set_files (insert zw (zip_encode entries)));;
      modify (set_zip (delete zw))
  | None => mret tt
  end.

(** *** The AWS SDK *)

(** [session.Must(session.NewSession())]. *)
Definition session_Must_NewSession : M unit :=
  match session_NewSession with
  | Some _ => panic "session.Must: NewSession failed"
  | None => mret tt
  end.

Definition UpdateFunctionCode (input : UpdateFunctionCodeInput) : M (result FunctionConfiguration) :=
  emit (EvUpdateFunctionCode input);;
  w ← get;
  let '(r, remote) := lambda_UpdateFunctionCode input (w_remote w) in
  modify (set_remote remote);; mret r.

Definition UpdateFunctionConfiguration (input : UpdateFunctionConfigurationInput)
  : M (result FunctionConfiguration) :=
  emit (EvUpdateFunctionConfiguration input);;
  w ← get;
  let '(r, remote) := lambda_UpdateFunctionConfiguration input (w_remote w) in
  modify (set_remote remote);; mret r.

(** ** The program *)

Notation "x ←? y ; z" := (try y (fun x => z))
  (at level 20, y at level 100, z at level 200, only parsing).
Notation "'defer' d ;;; z" := (deferred d z)
  (at level 20, d at level 100, z at level 200, only parsing).

(** *** Decoding a descriptor *)

(** Modelled from the spec: the struct decoding of [yaml.Unmarshal]
    (package [gopkg.in/yaml.v2], not part of the repository).  A field
    receives a scalar; a null leaves the zero value. *)
Definition decode_string (v : yaml) : result string :=
  match v with
  | YScalar s => Ok s
  | YNull => Ok ""
  | YSeq _ => Err (YamlError "cannot unmarshal !!seq into string")
  | YMap _ => Err (YamlError "cannot unmarshal !!map into string")
  end.

(** Modelled from the spec: the keys of the mapping are matched against
    the tags [yaml:"name"] and [yaml:"fileName"] of [functionConfig];
    any other key is skipped, and a field whose key is absent keeps the
    value it had. *)
Fixpoint decode_fields (kvs : list (string * yaml)) (c : functionConfig)
  : result functionConfig :=
  match kvs with
  | [] => Ok c
  | (k, v) :: rest =>
      if decide (k = "name") then
        match decode_string v with
        | Ok s => decode_fields rest {| Name := s; FileName := FileName c; Path := Path c |}
        | Err e => Err e
        end
      else if decide (k = "fileName") then
        match decode_string v with
        | Ok s => decode_fields rest {| Name := Name c; FileName := s; Path := Path c |}
        | Err e => Err e
        end
      else decode_fields rest c
  end.

(** Modelled from the spec: [yaml.Unmarshal(data, &function)], the
    decoded record in place of the mutated one.  The text must parse,
    and the document must be a mapping (or empty). *)
Definition yaml_Unmarshal (data : list byte) (function : functionConfig)
  : result functionConfig :=
  match yaml_parse data with
  | inl msg => Err (YamlError msg)
  | inr YNull => Ok function
  | inr (YMap kvs) => decode_fields kvs function
  | inr (YScalar _) => Err (YamlError "cannot unmarshal !!str into main.functionConfig")
  | inr (YSeq _) => Err (YamlError "cannot unmarshal !!seq into main.functionConfig")
  end.

(** [parseFunctionConfig(path)]. *)
Definition parseFunctionConfig (path : string) : M (result functionConfig) :=
  data ←? ioutil_ReadFile path;
  match yaml_Unmarshal data zero_functionConfig with
  | Err e => mret (Err e)
  | Ok function =>
      mret (Ok {| Name := Name function;
                  FileName := FileName function;
                  Path := GoStrings.Replace 1 "/.function.yaml" "" path |})
  end.

(** *** Paths of a descriptor ([fmt.Sprintf] with [%s] verbs) *)

Definition getBuildOutputPath (conf : functionConfig) : string :=
  Path conf +:+ "/" +:+ Name conf.

Definition getZipOutputPath (conf : functionConfig) : string :=
  Path conf +:+ "/" +:+ Name conf +:+ ".zip".

Definition getFullFilePath (conf : functionConfig) : string :=
  Path conf +:+ "/" +:+ FileName conf.

(** *** Clean-up *)

Definition mustDeleteBuildFile (conf : functionConfig) : M unit :=
  r ← os_Remove (getBuildOutputPath conf);
  match r with
  | Err err => logrus_Fatalf err ("error while deleting build at " +:+ getBuildOutputPath conf)
  | Ok _ => mret tt
  end.

Definition mustDeleteZipFile (conf : functionConfig) : M unit :=
  r ← os_Remove (getZipOutputPath conf);
  match r with
  | Err err => logrus_Fatalf err ("error while deleting build at " +:+ getBuildOutputPath conf)
  | Ok _ => mret tt
  end.

(** *** Build *)

Definition build (conf : functionConfig) : M (result unit) :=
  _ ←? exec_Command_Run "go" ["build"; "-o"; getBuildOutputPath conf; getFullFilePath conf];
  mret (Ok tt).

(** *** Package *)

Definition zipBuild (conf : functionConfig) : M (result unit) :=
  zipFile ←? os_Create (getZipOutputPath conf);
  writer ← zip_NewWriter zipFile;
  defer Writer_Close writer ;;;
  fileToZip ←? os_Open (getBuildOutputPath conf);
  defer File_Close fileToZip ;;;
  fileStats ←? File_Stat fileToZip;
  header ←? mret (zip_FileInfoHeader fileStats);
  let header := {| fh_Name := fi_Name fileStats;
                   fh_Method := zip_Deflate;
                   fh_UncompressedSize64 := fh_UncompressedSize64 header |} in
  fileWriter ←? Writer_CreateHeader writer header;
  _ ←? io_Copy fileWriter fileToZip;
  mret (Ok tt).

(** The header [zipBuild] writes for a built file of [size] bytes. *)
Definition build_header (conf : functionConfig) (size : nat) : FileHeader :=
  {| fh_Name := GoStrings.basename (getBuildOutputPath conf);
     fh_Method := zip_Deflate;
     fh_UncompressedSize64 := Z.of_nat size |}.

(** *** Deploy *)

Definition code_input (conf : functionConfig) (data : list byte) : UpdateFunctionCodeInput :=
  {| ufc_DryRun := None; ufc_FunctionName := Some (Name conf); ufc_Publish := None;
     ufc_RevisionId := None; ufc_S3Bucket := None; ufc_S3Key := None;
     ufc_S3ObjectVersion := None; ufc_ZipFile := Some data |}.

Definition configuration_input (conf : functionConfig) : UpdateFunctionConfigurationInput :=
  {| ufg_DeadLetterConfig := None; ufg_Description := None; ufg_Environment := None;
     ufg_FunctionName := None; ufg_Handler := Some (Name conf); ufg_KMSKeyArn := None;
     ufg_Layers := None; ufg_MemorySize := None; ufg_RevisionId := None;
     ufg_Role := None; ufg_Runtime := None; ufg_Timeout := None;
     ufg_TracingConfig := None; ufg_VpcConfig := None |}.

Definition updateLambda (conf : functionConfig) : M (result unit) :=
  data ←? ioutil_ReadFile (getZipOutputPath conf);
  session_Must_NewSession;;
  lambdaInfo ←? UpdateFunctionCode (code_input conf data);
  functionName ← deref (fc_FunctionName lambdaInfo);
  logrus_Infof ("updated lambda function " +:+ functionName);;
  handler ← deref (fc_Handler lambdaInfo);
  if decide (GoStrings.Compare handler (Name conf) ≠ 0) then
    _ ←? UpdateFunctionConfiguration (configuration_input conf);
    functionName ← deref (fc_FunctionName lambdaInfo);
    logrus_Infof ("updated handler name for lambda " +:+ functionName +:+ " to prevent issues");;
    mret (Ok tt)
  else mret (Ok tt).

(** *** [main] *)

(** The function literal that [main] calls once per descriptor. *)
Definition processFile (file : string) : M unit :=
  r ← parseFunctionConfig file;
  match r with
  | Err err => logrus_Fatalf err ("error while reading function config at " +:+ file)
  | Ok config =>
      r ← build config;
      match r with
      | Err err => logrus_Fatalf err ("error while compiling for config at " +:+ file)
      | Ok _ =>
          defer mustDeleteBuildFile config ;;;
          r ← zipBuild config;
          match r with
          | Err err => logrus_Fatalf err ("error while building function config at " +:+ file)
          | Ok _ =>
              defer mustDeleteZipFile config ;;;
              r ← updateLambda config;
              match r with
              | Err err =>
                  logrus_Fatalf err
                    ("error while updating Lambda-Function for config at " +:+ file)
              | Ok _ => mret tt
              end
          end
      end
  end.

(** [for _, file := range files { func() { ... }() }]. *)
Fixpoint range_files (files : list string) : M unit :=
  match files with
  | [] => mret tt
  | file :: rest => processFile file;; range_files rest
  end.

Definition findFunctionConfigs (root : string) : M (result (list string)) :=
  fun w => (Discovery.findFunctionConfigs root (w_tree w), w).

Definition main : M unit :=
  w ← get;
  match w_cwd w with
  | Err err => logrus_Fatalf err "error while reading current directory"
  | Ok currentDir =>
      r ← findFunctionConfigs currentDir;
      match r with
      | Err err => logrus_Fatalf err "error while reading function files directory"
      | Ok files => range_files files
      end
  end.

End Pipeline.

(** ** A stand-in for the outside

    A small, fully computable [Env]: a YAML reader that knows a few
    documents, a [go] tool that succeeds when the source file exists, a
    zip codec that writes the entries down digit by digit, and a function
    platform that keeps a handler per function name and, like the SDK,
    refuses a request without a function name. *)

Module Demo.

Global Instance byte_eq_dec : EqDecision byte := Byte.byte_eq_dec.

Definition bytes (s : string) : list byte := String.list_byte_of_string s.

Definition descriptor : list byte := bytes "{name: foo, fileName: foo.go}".

Definition yaml_parse (data : list byte) : string + yaml :=
  if decide (data = descriptor)
  then inr (YMap [("name", YScalar "foo"); ("fileName", YScalar "foo.go")])
  else if decide (data = bytes "{fileName: foo.go, runtime: [go1.x]}")
  then inr (YMap [("fileName", YScalar "foo.go"); ("runtime", YSeq [YScalar "go1.x"])])
  else if decide (data = bytes "{name: [foo]}")
  then inr (YMap [("name", YSeq [YScalar "foo"])])
  else inl "yaml: did not find expected node content".

Definition exec_Run (name : string) (args : list string) (files : gmap string (list byte))
  : option error * gmap string (list byte) :=
  match args with
  | [cmd; flag; out; src] =>
      if decide (name = "go" /\ cmd = "build" /\ flag = "-o") then
        match files !! src with
        | Some code => (None, <[out := bytes "ELF" ++ code]> files)
        | None => (Some (ExecError "exit status 1"), files)
        end
      else (Some (ExecError "exit status 2"), files)
  | _ => (Some (ExecError "exit status 2"), files)
  end.

Global Instance byte_countable : Countable byte :=
  inj_countable Byte.to_N Byte.of_N Byte.of_to_N.

Global Instance FileHeader_eq_dec : EqDecision FileHeader.
Proof. solve_decision. Defined.

Global Instance FileHeader_countable : Countable FileHeader :=
  inj_countable'
    (fun fh => (fh_Name fh, fh_Method fh, fh_UncompressedSize64 fh))
    (fun t => mkFileHeader t.1.1 t.1.2 t.2)
    (fun fh => match fh with mkFileHeader _ _ _ => eq_refl end).

(** A number, least significant binary digit first, one byte a digit. *)
Fixpoint digits (p : positive) : list byte :=
  match p with
  | xH => []
  | xO p' => x00 :: digits p'
  | xI p' => x01 :: digits p'
  end.

Fixpoint undigits (l : list byte) : positive :=
  match l with
  | [] => xH
  | b :: l' => if decide (b = x00) then xO (undigits l') else xI (undigits l')
  end.

Definition zip_encode (entries : list zip_entry) : list byte := digits (encode entries).
Definition zip_decode (archive : list byte) : option (list zip_entry) :=
  decode (undigits archive).

Definition UpdateFunctionCode (input : UpdateFunctionCodeInput) (remote : gmap string string)
  : result FunctionConfiguration * gmap string string :=
  match ufc_FunctionName input with
  | None => (Err (AwsError "InvalidParameter: missing required field, FunctionName"), remote)
  | Some name =>
      match remote !! name with
      | Some handler =>
          (Ok {| fc_FunctionName := Some name; fc_Handler := Some handler |}, remote)
      | None => (Err (AwsError "ResourceNotFoundException"), remote)
      end
  end.

Definition UpdateFunctionConfiguration (input : UpdateFunctionConfigurationInput)
    (remote : gmap string string) : result FunctionConfiguration * gmap string string :=
  match ufg_FunctionName input with
  | None => (Err (AwsError "InvalidParameter: missing required field, FunctionName"), remote)
  | Some name =>
      match remote !! name with
      | Some handler =>
          let handler := default handler (ufg_Handler input) in
          (Ok {| fc_FunctionName := Some name; fc_Handler := Some handler |},
           <[name := handler]> remote)
      | None => (Err (AwsError "ResourceNotFoundException"), remote)
      end
  end.

Definition env : Env :=
  mkEnv yaml_parse exec_Run (fun _ _ => None) zip_encode None
    (gmap string string) UpdateFunctionCode UpdateFunctionConfiguration.

#[local] Existing Instance env.

(** A descriptor and its source in [/srv/fn]; the platform has no
    function [foo]. *)
Definition unknown_function : world :=
  {| w_cwd := Ok "/srv";
     w_tree :=
       Discovery.Node (mkFileInfo "srv" 4096 true)
         (inr [Discovery.Node (mkFileInfo "fn" 4096 true)
                 (inr [Discovery.Node (mkFileInfo ".function.yaml" 29 false) (inr []);
                       Discovery.Node (mkFileInfo "foo.go" 12 false) (inr [])])]);
     w_files := {[ "/srv/fn/.function.yaml" := descriptor;
                   "/srv/fn/foo.go" := bytes "package main" ]};
     w_zip := ∅;
     w_remote := ∅;
     w_log := [] |}.

(** The same tree; the platform has [foo], with the handler [handler]. *)
Definition deployed (handler : string) : world :=
  {| w_cwd := w_cwd unknown_function;
     w_tree := w_tree unknown_function;
     w_files := w_files unknown_function;
     w_zip := ∅;
     w_remote := {[ "foo" := handler ]};
     w_log := [] |}.

(** Two descriptors; the source file of the first, in [/srv/a], is
    missing. *)
Definition missing_source : world :=
  {| w_cwd := Ok "/srv";
     w_tree :=
       Discovery.Node (mkFileInfo "srv" 4096 true)
         (inr [Discovery.Node (mkFileInfo "a" 4096 true)
                 (inr [Discovery.Node (mkFileInfo ".function.yaml" 29 false) (inr [])]);
               Discovery.Node (mkFileInfo "b" 4096 true)
                 (inr [Discovery.Node (mkFileInfo ".function.yaml" 29 false) (inr []);
                       Discovery.Node (mkFileInfo "foo.go" 12 false) (inr [])])]);
     w_files := {[ "/srv/a/.function.yaml" := descriptor;
                   "/srv/b/.function.yaml" := descriptor;
                   "/srv/b/foo.go" := bytes "package main" ]};
     w_zip := ∅;
     w_remote := {[ "foo" := "foo" ]};
     w_log := [] |}.

(** A descriptor below a directory whose name begins like the marker. *)
Definition marker_like_directory : world :=
  {| w_cwd := Ok "/a";
     w_tree :=
       Discovery.Node (mkFileInfo "a" 4096 true)
         (inr [Discovery.Node (mkFileInfo ".function.yaml.d" 4096 true)
                 (inr [Discovery.Node (mkFileInfo ".function.yaml" 29 false) (inr []);
                       Discovery.Node (mkFileInfo "foo.go" 12 false) (inr [])])]);
     w_files := {[ "/a/.function.yaml.d/.function.yaml" := descriptor;
                   "/a/.function.yaml.d/foo.go" := bytes "package main" ]};
     w_zip := ∅;
     w_remote := {[ "foo" := "foo" ]};
     w_log := [] |}.

(** The descriptor of [/srv/fn] once parsed, the binary the stand-in
    compiler makes of its source, and the archive of that binary. *)
Definition foo_conf : functionConfig :=
  {| Name := "foo"; FileName := "foo.go"; Path := "/srv/fn" |}.

Definition binary : list byte := bytes "ELF" ++ bytes "package main".

Definition archive : list byte :=
  zip_encode [(build_header foo_conf (length binary), binary)].

(** [/srv/fn] after build and packaging. *)
Definition packaged (handler : string) : world :=
  {| w_cwd := w_cwd unknown_function;
     w_tree := w_tree unknown_function;
     w_files := <[ "/srv/fn/foo.zip" := archive ]>
                  (<[ "/srv/fn/foo" := binary ]> (w_files unknown_function));
     w_zip := ∅;
     w_remote := {[ "foo" := handler ]};
     w_log := [] |}.

(** [/srv/fn] after build. *)
Definition built : world :=
  {| w_cwd := w_cwd unknown_function;
     w_tree := w_tree unknown_function;
     w_files := <[ "/srv/fn/foo" := binary ]> (w_files unknown_function);
     w_zip := ∅;
     w_remote := {[ "foo" := "foo" ]};
     w_log := [] |}.

End Demo.

(** ** Further notions for stating what the program does *)

(** The code uploads among the calls of a log. *)
Definition uploads (log : list event) : list UpdateFunctionCodeInput :=
  omap (fun ev => match ev with
                  | EvUpdateFunctionCode input => Some input
                  | _ => None
                  end) log.

(** Whether a ['/'] occurs in [s]. *)
Fixpoint has_slash (s : string) : bool :=
  match s with
  | EmptyString => false
  | String c s' => if decide (c = "/"%char) then true else has_slash s'
  end.

(** The message of a nil dereference. *)
Definition nil_dereference : string := "invalid memory address or nil pointer dereference".


Section PipelineStates.
Context {E : Env}.

(** The world in which the deploy step of a descriptor starts, when
    parse, build and packaging went well: [files] are the files the
    compiler left, [content] is the built file among them. *)
Definition packaged_world (file : string) (conf : functionConfig)
    (files : gmap string (list byte)) (content : list byte) (w : world) : world :=
  mkWorld (w_cwd w) (w_tree w)
    (<[getZipOutputPath conf :=
         zip_encode [(build_header conf (length content), content)]]> files)
    (delete (getZipOutputPath conf) (w_zip w))
    (w_remote w)
    (w_log w ++ [EvReadFile file;
                 EvExec "go" ["build"; "-o"; getBuildOutputPath conf; getFullFilePath conf];
                 EvCreate (getZipOutputPath conf); EvOpen (getBuildOutputPath conf)]).

(** The world after both deferred deletions ran in [w]. *)
Definition cleaned_world (conf : functionConfig) (w : world) : world :=
  mkWorld (w_cwd w) (w_tree w)
    (delete (getBuildOutputPath conf) (delete (getZipOutputPath conf) (w_files w)))
    (w_zip w) (w_remote w)
    (w_log w ++ [EvRemove (getZipOutputPath conf); EvRemove (getBuildOutputPath conf)]).

End PipelineStates.

(** More stand-ins: an environment without AWS credentials, one whose
    directories are read-only, and a few more trees. *)

Module DemoMore.

Definition env_no_session : Env :=
  mkEnv Demo.yaml_parse Demo.exec_Run (fun _ _ => None) Demo.zip_encode
    (Some (AwsError "NoCredentialProviders"))
    (gmap string string) Demo.UpdateFunctionCode Demo.UpdateFunctionConfiguration.

Definition env_read_only : Env :=
  mkEnv Demo.yaml_parse Demo.exec_Run (fun _ _ => Some "permission denied") Demo.zip_encode
    None
    (gmap string string) Demo.UpdateFunctionCode Demo.UpdateFunctionConfiguration.

(** [/srv/fn] where no session can be created. *)
Definition no_session : @world env_no_session :=
  {| w_cwd := Ok "/srv";
     w_tree := @w_tree Demo.env Demo.unknown_function;
     w_files := @w_files Demo.env Demo.unknown_function;
     w_zip := ∅;
     w_remote := {[ "foo" := "foo" ]};
     w_log := [] |}.

(** [/srv/fn] where no file can be created. *)
Definition read_only : @world env_read_only :=
  {| w_cwd := Ok "/srv";
     w_tree := @w_tree Demo.env Demo.unknown_function;
     w_files := @w_files Demo.env Demo.unknown_function;
     w_zip := ∅;
     w_remote := {[ "foo" := "foo" ]};
     w_log := [] |}.

(** A descriptor in [/srv/a], and beside it an entry [b] whose [Lstat]
    fails. *)
Definition half_read : @world Demo.env :=
  {| w_cwd := Ok "/srv";
     w_tree :=
       Discovery.Node (mkFileInfo "srv" 4096 true)
         (inr [Discovery.Node (mkFileInfo "a" 4096 true)
                 (inr [Discovery.Node (mkFileInfo ".function.yaml" 29 false) (inr []);
                       Discovery.Node (mkFileInfo "foo.go" 12 false) (inr [])]);
               Discovery.Broken "b" "permission denied"]);
     w_files := {[ "/srv/a/.function.yaml" := Demo.descriptor;
                   "/srv/a/foo.go" := Demo.bytes "package main" ]};
     w_zip := ∅;
     w_remote := {[ "foo" := "foo" ]};
     w_log := [] |}.

(** A tree without a descriptor; the descriptor text sits in a file of
    another name. *)
Definition no_descriptors : @world Demo.env :=
  {| w_cwd := Ok "/srv";
     w_tree :=
       Discovery.Node (mkFileInfo "srv" 4096 true)
         (inr [Discovery.Node (mkFileInfo "README.md" 120 false) (inr []);
               Discovery.Node (mkFileInfo "f.yaml" 29 false) (inr [])]);
     w_files := {[ "/srv/README.md" := Demo.bytes "Lambda-CI";
                   "/srv/f.yaml" := Demo.descriptor ]};
     w_zip := ∅;
     w_remote := {[ "foo" := "foo" ]};
     w_log := [] |}.

End DemoMore.

(** * Facts *)

(** ** Strings *)

Example Replace_example :
  GoStrings.Replace 1 "/.function.yaml" "" "/a/b/.function.yaml" = "/a/b".
Proof. reflexivity. Qed.

Example basename_examples :
  map GoStrings.basename ["/a/b/foo"; "foo"; "/"; "//"; "a/b//"; ""; "/a/b.zip"]
  = ["foo"; "foo"; "/"; "/"; "b"; ""; "b.zip"].
Proof. reflexivity. Qed.

Lemma Compare_eq_iff (a b : string) : GoStrings.Compare a b = 0 <-> a = b.
Proof.
  unfold GoStrings.Compare. split.
  - destruct (String.compare a b) eqn:Hc; try discriminate.
    intros _. by apply String.compare_eq_iff.
  - intros ->. assert (String.compare b b = Eq) as ->; [|done].
    induction b as [|c b IH]; simpl; [done|].
    unfold Ascii.compare. by rewrite N.compare_refl.
Qed.

Lemma length_app (s t : string) :
  String.length (s +:+ t) = (String.length s + String.length t)%nat.
Proof. induction s as [|c s IH]; simpl; [done|]. by rewrite IH. Qed.

Lemma app_String (c : ascii) (s t : string) : String c s +:+ t = String c (s +:+ t).
Proof. reflexivity. Qed.

(** An instance of the marker that begins inside [dir] ends inside it:
    the marker begins with its only ['/']. *)
Lemma marker_no_overlap (dir : string) :
  GoStrings.HasPrefix (dir +:+ "/.function.yaml") "/.function.yaml" = true ->
  dir = "" \/ GoStrings.contains dir "/.function.yaml".
Proof.
  intros H.
  destruct dir as [|c dir]; [by left|right].
  do 14 (rewrite app_String in H; simpl in H;
         destruct (decide _) as [<-|]; [|discriminate];
         destruct dir as [|c dir]; [vm_compute in H; discriminate|]).
  rewrite app_String in H; simpl in H. destruct (decide _) as [<-|]; [|discriminate].
  by exists "", dir.
Qed.

Lemma Replace_1_String (old new : string) (c : ascii) (s : string) :
  GoStrings.Replace 1 old new (String c s) =
    if GoStrings.HasPrefix (String c s) old
    then new +:+ GoStrings.drop (String.length old) (String c s)
    else String c (GoStrings.Replace 1 old new s).
Proof. reflexivity. Qed.

(** Where the marker occurs only at the end of the path, replacing its
    first instance cuts it off the end. *)
Lemma Replace_trailing_marker (dir : string) :
  ~ GoStrings.contains dir "/.function.yaml" ->
  GoStrings.Replace 1 "/.function.yaml" "" (dir +:+ "/.function.yaml") = dir.
Proof.
  induction dir as [|c dir IH]; intros Hfree; [reflexivity|].
  assert (GoStrings.HasPrefix (String c dir +:+ "/.function.yaml") "/.function.yaml" = false)
    as Hhead.
  { destruct (GoStrings.HasPrefix _ _) eqn:Hp; [|done].
    by destruct (marker_no_overlap _ Hp). }
  assert (~ GoStrings.contains dir "/.function.yaml") as Hfree'.
  { intros (pre & post & ->). apply Hfree. by exists (String c pre), post. }
  rewrite app_String, Replace_1_String, <- app_String, Hhead.
  by rewrite (IH Hfree').
Qed.

(** ** The monad *)

Ltac proc_unfold :=
  unfold mbind, mret, Proc_bind, Proc_ret, modify, get, panic, os_Exit, deref in *.

(** ** Discovery *)

Section DiscoveryFacts.
Import Discovery.

(** Induction on a tree, with the hypothesis for every child of a
    directory. *)
Lemma node_ind (P : node -> Prop)
  (HBroken : forall name msg, P (Broken name msg))
  (HNode : forall info ents,
      match ents with inr kids => Forall P kids | inl _ => True end ->
      P (Node info ents)) :
  forall n, P n.
Proof.
  fix IH 1. intros [info ents | name msg]; [|apply HBroken].
  apply HNode. destruct ents as [msg | kids]; [exact I|].
  induction kids as [|c kids IHk]; constructor; [apply IH | apply IHk].
Qed.

Lemma walk_Node {S} (walkFn : string -> option FileInfo -> option error -> Proc S (option error))
    path info ents :
  walk walkFn path (Node info ents) =
    if negb (fi_IsDir info) then walkFn path (Some info) None
    else
      err1 ← walkFn path (Some info)
               (match ents with
                | inl msg => Some (PathError "open" path msg)
                | inr _ => None
                end);
      match ents, err1 with
      | inr names, None => walk_range walkFn path names
      | _, _ => mret err1
      end.
Proof. reflexivity. Qed.

Lemma entries_Node path info ents :
  entries path (Node info ents) =
    (path, fi_Name info) ::
    match fi_IsDir info, ents with
    | true, inr kids => entries_below path kids
    | _, _ => []
    end.
Proof. reflexivity. Qed.

Lemma readable_Node info ents :
  readable (Node info ents) =
    match fi_IsDir info, ents with
    | false, _ => true
    | true, inl _ => false
    | true, inr kids => all_readable kids
    end.
Proof. reflexivity. Qed.

(** The closure on an entry that was read without error. *)
Lemma visit_ok path info files :
  visit path (Some info) None files =
    (Returned None, files ++ (filter is_marker [(path, fi_Name info)]).*1).
Proof.
  unfold visit. proc_unfold. simpl.
  rewrite filter_cons, filter_nil. unfold is_marker at 1. simpl.
  destruct (decide (GoStrings.Compare (fi_Name info) ".function.yaml" = 0)) as [Hc|Hc].
  - apply Compare_eq_iff in Hc. rewrite decide_True by done. done.
  - rewrite decide_False; [by rewrite app_nil_r|].
    intros Heq. apply Hc. by apply Compare_eq_iff.
Qed.

(** The loop over the children appends the markers below each child,
    in order. *)
Lemma walk_range_readable path kids :
  Forall (fun n => forall path files, readable n = true ->
            walk visit path n files = (Returned None, files ++ marker_paths path n)) kids ->
  forall files, all_readable kids = true ->
  walk_range visit path kids files =
    (Returned None, files ++ (filter is_marker (entries_below path kids)).*1).
Proof.
  induction 1 as [|c kids Hc _ IHk]; intros files Hr; simpl.
  - by rewrite app_nil_r.
  - simpl in Hr. apply andb_prop in Hr as [Hrc Hrk].
    destruct c as [info ents | name msg]; [|discriminate].
    unfold mbind, Proc_bind. rewrite (Hc _ _ Hrc).
    rewrite (IHk _ Hrk). unfold marker_paths.
    by rewrite list.filter_app, fmap_app, app_assoc.
Qed.

Lemma walk_readable n : forall path files,
  readable n = true ->
  walk visit path n files = (Returned None, files ++ marker_paths path n).
Proof.
  induction n as [name msg | info ents IH] using node_ind; intros path files Hr;
    [discriminate|].
  rewrite walk_Node. unfold marker_paths. rewrite entries_Node.
  rewrite readable_Node in Hr.
  change ((path, fi_Name info) :: ?l) with ([(path, fi_Name info)] ++ l).
  rewrite list.filter_app, fmap_app.
  destruct (fi_IsDir info) eqn:Hdir; simpl (negb _); cbv iota.
  - destruct ents as [msg | kids]; [discriminate|].
    unfold mbind, Proc_bind. cbv beta iota. rewrite visit_ok.
    rewrite (walk_range_readable path kids IH _ Hr).
    by rewrite <- app_assoc.
  - rewrite visit_ok. do 2 f_equal. symmetry. apply app_nil_r.
Qed.

(** The closure hands back the error it is given. *)
Lemma visit_err path info e files :
  visit path info (Some e) files = (Returned (Some e), files).
Proof. reflexivity. Qed.

(** A tree that cannot be read throughout stops the walk with the path
    error of the first failure. *)
Lemma walk_range_unreadable path kids :
  Forall (fun n => forall path files, readable n = false ->
            exists op p msg files',
              walk visit path n files = (Returned (Some (PathError op p msg)), files')) kids ->
  forall files, all_readable kids = false ->
  exists op p msg files',
    walk_range visit path kids files = (Returned (Some (PathError op p msg)), files').
Proof.
  induction 1 as [|c kids Hc _ IHk]; intros files Hr; [discriminate|].
  simpl in Hr |- *. apply andb_false_iff in Hr.
  destruct (readable c) eqn:Hrc.
  - destruct Hr as [|Hrk]; [done|].
    destruct c as [info ents | name msg]; [|discriminate].
    unfold mbind, Proc_bind. rewrite (walk_readable _ _ _ Hrc).
    by apply IHk.
  - destruct c as [info ents | name msg].
    + destruct (Hc (Join path (fi_Name info)) files eq_refl)
        as (op & p & msg & files' & Hwalk).
      unfold mbind, Proc_bind. simpl node_name. rewrite Hwalk.
      rewrite bool_decide_true by done. rewrite orb_true_r. by eexists _, _, _, _.
    + unfold mbind, Proc_bind, visit, mret, Proc_ret.
      rewrite decide_False by done. by eexists _, _, _, _.
Qed.

Lemma walk_unreadable n : forall path files,
  readable n = false ->
  exists op p msg files',
    walk visit path n files = (Returned (Some (PathError op p msg)), files').
Proof.
  induction n as [name msg | info ents IH] using node_ind; intros path files Hr.
  { simpl. by eexists _, _, _, _. }
  rewrite walk_Node. rewrite readable_Node in Hr.
  destruct (fi_IsDir info) eqn:Hdir; [|discriminate]. simpl (negb _). cbv iota.
  destruct ents as [msg | kids].
  - unfold mbind, Proc_bind. rewrite visit_err. by eexists _, _, _, _.
  - unfold mbind, Proc_bind. cbv beta iota. rewrite visit_ok.
    apply (walk_range_unreadable path kids IH _ Hr).
Qed.

(** Discovery fails on a tree that cannot be read throughout. *)
Lemma findFunctionConfigs_unreadable root tree :
  readable tree = false ->
  exists e, Discovery.findFunctionConfigs root tree = Returned (Err e).
Proof.
  intros Hr. destruct (walk_unreadable tree root [] Hr) as (op & p & msg & files' & Hwalk).
  unfold Discovery.findFunctionConfigs, Walk, mbind, Proc_bind. rewrite Hwalk.
  rewrite decide_False by done. by eexists.
Qed.

(** C5.  On a tree that can be read throughout, discovery returns the
    full paths of exactly the entries of the subtree whose base name is
    [.function.yaml]: the list holds one path per such entry (in walk
    order), a path is in it if and only if it is the path of such an
    entry, and it is empty when the subtree has none. *)
Theorem findFunctionConfigs_exact (root : string) (tree : node) :
  readable tree = true ->
  exists files,
    Discovery.findFunctionConfigs root tree = Returned (Ok files)
    /\ files = (filter is_marker (entries root tree)).*1
    /\ (forall p, p ∈ files <-> (p, ".function.yaml") ∈ entries root tree)
    /\ length files = length (filter is_marker (entries root tree))
    /\ ((forall pn, pn ∈ entries root tree -> pn.2 <> ".function.yaml") -> files = []).
Proof.
  intros Hr. exists (marker_paths root tree).
  split; [|split; [done|split; [|split]]].
  - unfold Discovery.findFunctionConfigs, Walk, mbind, Proc_bind.
    by rewrite (walk_readable tree root [] Hr).
  - intros p. unfold marker_paths. rewrite list_elem_of_fmap. split.
    + intros [[p' name] [-> [Hm Hin]%list_elem_of_filter]].
      unfold is_marker in Hm. simpl in *. by subst name.
    + intros Hin. exists (p, ".function.yaml"). split; [done|].
      apply list_elem_of_filter. by split.
  - unfold marker_paths. by rewrite length_fmap.
  - intros Hnone. unfold marker_paths.
    induction (entries root tree) as [|pn l IHl]; [done|].
    rewrite filter_cons_False.
    + apply IHl. intros pn' Hin. apply Hnone. by right.
    + apply Hnone. by left.
Qed.

End DiscoveryFacts.

(** ** The pipeline *)

Section PipelineFacts.
Context {E : Env}.

Ltac run :=
  unfold try, deferred, emit, logrus_Fatalf, logrus_Infof; proc_unfold; simpl.

(** [parseFunctionConfig] reads the file and touches nothing else. *)
Lemma parseFunctionConfig_run path w :
  parseFunctionConfig path w =
    (Returned
       match w_files w !! path with
       | None => Err (not_exist "open" path)
       | Some data =>
           match yaml_Unmarshal data zero_functionConfig with
           | Err e => Err e
           | Ok function =>
               Ok {| Name := Name function; FileName := FileName function;
                     Path := GoStrings.Replace 1 "/.function.yaml" "" path |}
           end
       end,
     add_log (EvReadFile path) w).
Proof.
  unfold parseFunctionConfig, ioutil_ReadFile. run.
  destruct (w_files w !! path) as [data|]; [|done].
  by destruct (yaml_Unmarshal data zero_functionConfig).
Qed.

(** Where the marker occurs only at the end of the path of a
    descriptor, [Path] is the directory that holds the descriptor. *)
Lemma parseFunctionConfig_directory dir w conf :
  ~ GoStrings.contains dir "/.function.yaml" ->
  (parseFunctionConfig (dir +:+ "/.function.yaml") w).1 = Returned (Ok conf) ->
  Path conf = dir.
Proof.
  intros Hfree. rewrite parseFunctionConfig_run. simpl.
  destruct (w_files w !! _) as [data|]; [|discriminate].
  destruct (yaml_Unmarshal data zero_functionConfig) as [function|e]; [|discriminate].
  intros [= <-]. simpl. by apply Replace_trailing_marker.
Qed.

(** *** Decoding *)

Lemma decode_string_shape v :
  decode_string v = if field_shape v then Ok (scalar_text v)
                    else Err (YamlError match v with
                                        | YSeq _ => "cannot unmarshal !!seq into string"
                                        | _ => "cannot unmarshal !!map into string"
                                        end).
Proof. by destruct v. Qed.

Lemma field_after_cons_eq key v kvs start :
  field_after key ((key, v) :: kvs) start = field_after key kvs (scalar_text v).
Proof.
  unfold field_after. simpl. rewrite decide_True by done.
  rewrite last_cons. by destruct (list.last _).
Qed.

Lemma field_after_cons_ne key k v kvs start :
  k <> key -> field_after key ((k, v) :: kvs) start = field_after key kvs start.
Proof. intros Hne. unfold field_after. simpl. by rewrite decide_False. Qed.

Lemma decode_fields_shape kvs : forall c,
  descriptor_shape (YMap kvs) = true ->
  decode_fields kvs c =
    Ok {| Name := field_after "name" kvs (Name c);
          FileName := field_after "fileName" kvs (FileName c);
          Path := Path c |}.
Proof.
  induction kvs as [|[k v] kvs IH]; intros c Hshape; simpl.
  - by destruct c.
  - simpl in Hshape. apply andb_prop in Hshape as [Hv Hrest].
    destruct (decide (k = "name")) as [->|Hn].
    + rewrite decide_True in Hv by (by left).
      rewrite decode_string_shape, Hv, (IH _ Hrest). simpl.
      by rewrite field_after_cons_eq, field_after_cons_ne.
    + destruct (decide (k = "fileName")) as [->|Hf].
      * rewrite decide_True in Hv by (by right).
        rewrite decode_string_shape, Hv, (IH _ Hrest). simpl.
        by rewrite field_after_cons_eq, field_after_cons_ne.
      * rewrite (IH _ Hrest). by rewrite !field_after_cons_ne.
Qed.

Lemma decode_fields_no_shape kvs : forall c,
  descriptor_shape (YMap kvs) = false ->
  exists msg, decode_fields kvs c = Err (YamlError msg).
Proof.
  induction kvs as [|[k v] kvs IH]; intros c Hshape; simpl in *; [done|].
  apply andb_false_iff in Hshape.
  destruct (decide (k = "name")) as [->|Hn].
  - rewrite decide_True in Hshape by (by left). rewrite decode_string_shape.
    destruct (field_shape v); [|by eexists].
    destruct Hshape as [|Hrest]; [done|]. by apply IH.
  - destruct (decide (k = "fileName")) as [->|Hf].
    + rewrite decide_True in Hshape by (by right). rewrite decode_string_shape.
      destruct (field_shape v); [|by eexists].
      destruct Hshape as [|Hrest]; [done|]. by apply IH.
    + rewrite decide_False in Hshape by (by intros [|]).
      destruct Hshape as [|Hrest]; [done|]. by apply IH.
Qed.

Lemma field_value_absent key kvs : key ∉ kvs.*1 -> field_value key kvs = "".
Proof.
  intros Hnot. unfold field_value.
  induction kvs as [|[k v] kvs IH]; simpl; [done|].
  rewrite fmap_cons, not_elem_of_cons in Hnot. destruct Hnot as [Hne Hnot].
  rewrite decide_False by (simpl in *; congruence). by apply IH.
Qed.

(** C9.  For a descriptor file that can be read: parsing fails with a
    decode error exactly when the text is not valid YAML or the document
    has not the expected shape.  A document of the expected shape parses,
    whatever other keys it holds; [Name] and [FileName] are the texts of
    the keys [name] and [fileName], and the empty string when the key
    is missing. *)
Theorem parse_decode_errors path w data :
  w_files w !! path = Some data ->
  ((exists msg, (parseFunctionConfig path w).1 = Returned (Err (YamlError msg)))
   <-> ((exists msg, yaml_parse data = inl msg)
        \/ (exists doc, yaml_parse data = inr doc /\ descriptor_shape doc = false)))
  /\ (forall kvs,
        yaml_parse data = inr (YMap kvs) ->
        descriptor_shape (YMap kvs) = true ->
        exists conf,
          (parseFunctionConfig path w).1 = Returned (Ok conf)
          /\ Name conf = field_value "name" kvs
          /\ FileName conf = field_value "fileName" kvs
          /\ ("name" ∉ kvs.*1 -> Name conf = "")
          /\ ("fileName" ∉ kvs.*1 -> FileName conf = "")).
Proof.
  intros Hdata. rewrite parseFunctionConfig_run, Hdata. simpl.
  unfold yaml_Unmarshal. split.
  - destruct (yaml_parse data) as [msg|doc] eqn:Hparse.
    { split; [intros _; left; by eexists | intros _; by eexists]. }
    destruct (descriptor_shape doc) eqn:Hshape.
    + split.
      * intros [msg Herr]. exfalso.
        destruct doc as [|s|items|kvs]; try discriminate.
        by rewrite (decode_fields_shape kvs _ Hshape) in Herr.
      * intros [[msg Hmsg]|[doc' [Hdoc Hno]]]; [done|].
        injection Hdoc as <-. congruence.
    + split; [intros _; right; by eexists|]. intros _.
      destruct doc as [|s|items|kvs]; try discriminate; try by eexists.
      destruct (decode_fields_no_shape kvs zero_functionConfig Hshape) as [msg ->].
      by eexists.
  - intros kvs -> Hshape. rewrite (decode_fields_shape kvs _ Hshape). simpl.
    eexists. split; [done|]. simpl.
    repeat split; try done; intros Habs; by apply field_value_absent.
Qed.

(** [build] is the one subprocess call. *)
Lemma build_run (conf : functionConfig) (w : world) :
  let args := ["build"; "-o"; getBuildOutputPath conf; getFullFilePath conf] in
  let ran := exec_Run "go" args (w_files w) in
  build conf w =
    (Returned (match ran.1 with Some e => Err e | None => Ok tt end),
     set_files (fun _ => ran.2) (add_log (EvExec "go" args) w)).
Proof.
  intros args ran. unfold build, exec_Command_Run. run.
  change (exec_Run _ _ _) with ran.
  by destruct ran as [[e|] files].
Qed.

(** C10.  [build] makes exactly one call on the outside: the subprocess
    [go] with the arguments [build], [-o], [<Path>/<Name>],
    [<Path>/<FileName>].  It returns, with an error exactly when that
    subprocess reports one, and the files are as the subprocess left
    them. *)
Theorem build_invokes_compiler (conf : functionConfig) (w : world) :
  let args := ["build"; "-o"; Path conf +:+ "/" +:+ Name conf;
               Path conf +:+ "/" +:+ FileName conf] in
  exists r w',
    build conf w = (Returned r, w')
    /\ w_log w' = w_log w ++ [EvExec "go" args]
    /\ (r = Ok tt <-> (exec_Run "go" args (w_files w)).1 = None)
    /\ w_files w' = (exec_Run "go" args (w_files w)).2.
Proof.
  intros args. eexists _, _. split; [apply build_run|].
  fold (getBuildOutputPath conf) (getFullFilePath conf). simpl.
  split; [done|]. split; [|done].
  destruct (exec_Run _ _ _) as [[e|] files]; simpl; split; done.
Qed.

(** [updateLambda] up to the comparison of the handler names: the
    archive is read, the code is uploaded, the confirmation is logged. *)
Lemma updateLambda_run conf w data info fn h remote :
  w_files w !! getZipOutputPath conf = Some data ->
  session_NewSession = None ->
  lambda_UpdateFunctionCode (code_input conf data) (w_remote w) = (Ok info, remote) ->
  fc_FunctionName info = Some fn ->
  fc_Handler info = Some h ->
  let w1 := add_log (EvInfo ("updated lambda function " +:+ fn))
              (set_remote remote
                 (add_log (EvUpdateFunctionCode (code_input conf data))
                    (add_log (EvReadFile (getZipOutputPath conf)) w))) in
  updateLambda conf w =
    if decide (h = Name conf) then (Returned (Ok tt), w1)
    else
      let w2 := add_log (EvUpdateFunctionConfiguration (configuration_input conf)) w1 in
      let r := lambda_UpdateFunctionConfiguration (configuration_input conf) (w_remote w2) in
      match r.1 with
      | Err e => (Returned (Err e), set_remote r.2 w2)
      | Ok _ =>
          (Returned (Ok tt),
           add_log (EvInfo ("updated handler name for lambda " +:+ fn +:+ " to prevent issues"))
             (set_remote r.2 w2))
      end.
Proof.
  intros Hdata Hsess Hcode Hfn Hh w1.
  unfold updateLambda, ioutil_ReadFile, session_Must_NewSession, UpdateFunctionCode,
    UpdateFunctionConfiguration.
  run. rewrite Hdata, Hsess. simpl. rewrite Hcode. simpl. rewrite Hfn, Hh. simpl.
  destruct (decide (h = Name conf)) as [Heq|Hne].
  - rewrite decide_False; [done|]. intros Hc. apply Hc. by apply Compare_eq_iff.
  - rewrite decide_True; [|by rewrite Compare_eq_iff].
    simpl. destruct (lambda_UpdateFunctionConfiguration _ _) as [[info'|e] remote']; done.
Qed.

Lemma configuration_requests_app l1 l2 :
  configuration_requests (l1 ++ l2) = configuration_requests l1 ++ configuration_requests l2.
Proof. apply omap_app. Qed.

(** C3.  Once the platform has confirmed the upload and reported a
    handler [h]: when [h] equals the configured name, [updateLambda]
    issues no configuration update; when it differs, it issues exactly
    one, whose handler is the configured name. *)
Theorem updateLambda_configuration_calls conf w data info fn h remote :
  w_files w !! getZipOutputPath conf = Some data ->
  session_NewSession = None ->
  lambda_UpdateFunctionCode (code_input conf data) (w_remote w) = (Ok info, remote) ->
  fc_FunctionName info = Some fn ->
  fc_Handler info = Some h ->
  let issued := configuration_requests (w_log (updateLambda conf w).2) in
  (h = Name conf -> issued = configuration_requests (w_log w))
  /\ (h <> Name conf ->
      exists req, issued = configuration_requests (w_log w) ++ [req]
                  /\ ufg_Handler req = Some (Name conf)).
Proof.
  intros Hdata Hsess Hcode Hfn Hh issued. subst issued.
  rewrite (updateLambda_run conf w data info fn h remote) by done.
  split; intros Hcmp.
  - rewrite decide_True by done. simpl.
    rewrite !configuration_requests_app. simpl. by rewrite !app_nil_r.
  - rewrite decide_False by done. exists (configuration_input conf). split; [|done].
    cbv zeta.
    destruct (lambda_UpdateFunctionConfiguration (configuration_input conf) _)
      as [[info'|e] remote']; simpl;
      rewrite !configuration_requests_app; simpl; by rewrite ?app_nil_r.
Qed.

(** C4.  The configuration update that [updateLambda] issues when the
    reported handler differs from the configured name carries the
    handler and nothing else: the function name, like every other
    field of the request, is nil. *)
Theorem updateLambda_configuration_request conf w data info fn h remote :
  w_files w !! getZipOutputPath conf = Some data ->
  session_NewSession = None ->
  lambda_UpdateFunctionCode (code_input conf data) (w_remote w) = (Ok info, remote) ->
  fc_FunctionName info = Some fn ->
  fc_Handler info = Some h ->
  h <> Name conf ->
  exists req,
    configuration_requests (w_log (updateLambda conf w).2)
      = configuration_requests (w_log w) ++ [req]
    /\ ufg_FunctionName req = None
    /\ req = {| ufg_DeadLetterConfig := None; ufg_Description := None;
                ufg_Environment := None; ufg_FunctionName := None;
                ufg_Handler := Some (Name conf); ufg_KMSKeyArn := None;
                ufg_Layers := None; ufg_MemorySize := None; ufg_RevisionId := None;
                ufg_Role := None; ufg_Runtime := None; ufg_Timeout := None;
                ufg_TracingConfig := None; ufg_VpcConfig := None |}.
Proof.
  intros Hdata Hsess Hcode Hfn Hh Hne.
  rewrite (updateLambda_run conf w data info fn h remote) by done.
  rewrite decide_False by done. exists (configuration_input conf). cbv zeta.
  split; [|done].
  destruct (lambda_UpdateFunctionConfiguration (configuration_input conf) _)
    as [[info'|e] remote']; simpl;
    rewrite !configuration_requests_app; simpl; by rewrite ?app_nil_r.
Qed.

(** The archive path is never the path of the built file. *)
Lemma zip_path_ne_build_path conf : getZipOutputPath conf <> getBuildOutputPath conf.
Proof.
  unfold getZipOutputPath, getBuildOutputPath. intros Heq.
  apply (f_equal String.length) in Heq.
  rewrite !length_app in Heq. simpl in Heq. lia.
Qed.

(** [zipBuild] on a built file that exists, when the archive file can
    be created: the archive holds one entry, and the writer is closed. *)
Lemma zipBuild_run conf w content :
  w_files w !! getBuildOutputPath conf = Some content ->
  os_Create_refused (getZipOutputPath conf) (w_files w) = None ->
  zipBuild conf w =
    (Returned (Ok tt),
     mkWorld (w_cwd w) (w_tree w)
       (<[getZipOutputPath conf :=
            zip_encode [(build_header conf (length content), content)]]> (w_files w))
       (delete (getZipOutputPath conf) (w_zip w))
       (w_remote w)
       (w_log w ++ [EvCreate (getZipOutputPath conf); EvOpen (getBuildOutputPath conf)])).
Proof.
  intros Hfile Hcreate.
  unfold zipBuild, os_Create, zip_NewWriter, os_Open, File_Stat, File_Close,
    Writer_CreateHeader, io_Copy, Writer_Close.
  run. rewrite Hcreate. simpl.
  repeat (first [ rewrite lookup_insert_eq
                | rewrite lookup_insert_ne by apply zip_path_ne_build_path
                | rewrite Hfile ]; simpl).
  unfold set_zip, set_files, add_log, build_header. simpl. do 2 f_equal.
  - by rewrite insert_insert_eq.
  - by rewrite !delete_insert_eq.
  - by rewrite <- app_assoc.
Qed.

(** C6.  Given a zip codec whose reader inverts its writer: for a built
    file that exists, when the archive file can be created, [zipBuild]
    succeeds, and the archive it leaves reads back as a single entry
    whose content is the built file byte for byte, whose name is the
    base name of the built file, and whose method is Deflate (8).  The
    built file itself is left as it was. *)
Theorem zipBuild_roundtrip (zip_decode : list byte -> option (list zip_entry))
    (conf : functionConfig) (w : world) (content : list byte) :
  (forall entries, zip_decode (zip_encode entries) = Some entries) ->
  w_files w !! getBuildOutputPath conf = Some content ->
  os_Create_refused (getZipOutputPath conf) (w_files w) = None ->
  exists w' archive hdr body,
    zipBuild conf w = (Returned (Ok tt), w')
    /\ w_files w' !! getZipOutputPath conf = Some archive
    /\ zip_decode archive = Some [(hdr, body)]
    /\ body = content
    /\ fh_Name hdr = GoStrings.basename (getBuildOutputPath conf)
    /\ fh_Method hdr = 8
    /\ w_files w' !! getBuildOutputPath conf = Some content.
Proof.
  intros Hcodec Hfile Hcreate.
  eexists _, _, (build_header conf (length content)), content.
  split; [by apply zipBuild_run|]. simpl.
  split; [apply lookup_insert_eq|].
  split; [apply Hcodec|].
  repeat split.
  by rewrite lookup_insert_ne by apply zip_path_ne_build_path.
Qed.

(** *** One descriptor *)

(** When [build] fails, the process exits on the spot. *)
Lemma processFile_build_failure file w conf w1 e w2 :
  parseFunctionConfig file w = (Returned (Ok conf), w1) ->
  build conf w1 = (Returned (Err e), w2) ->
  processFile file w =
    (Exited 1, add_log (EvFatal ("error while compiling for config at " +:+ file) e) w2).
Proof.
  intros Hparse Hbuild. unfold processFile. run.
  rewrite Hparse. simpl. by rewrite Hbuild.
Qed.

(** When [updateLambda] fails, the process exits on the spot: the
    deferred deletions do not run, and the world is the one the deploy
    step left, with the fatal entry logged. *)
Lemma processFile_deploy_failure file w conf w1 w2 w3 e w4 :
  parseFunctionConfig file w = (Returned (Ok conf), w1) ->
  build conf w1 = (Returned (Ok tt), w2) ->
  zipBuild conf w2 = (Returned (Ok tt), w3) ->
  updateLambda conf w3 = (Returned (Err e), w4) ->
  processFile file w =
    (Exited 1,
     add_log (EvFatal ("error while updating Lambda-Function for config at " +:+ file) e) w4).
Proof.
  intros Hparse Hbuild Hzip Hdeploy. unfold processFile. run.
  rewrite Hparse. simpl. rewrite Hbuild. simpl. rewrite Hzip. simpl.
  by rewrite Hdeploy.
Qed.

(** When every stage succeeds and both files are still there, the
    archive is removed, then the built file, and the call returns. *)
Lemma processFile_success file w conf w1 w2 w3 w4 :
  parseFunctionConfig file w = (Returned (Ok conf), w1) ->
  build conf w1 = (Returned (Ok tt), w2) ->
  zipBuild conf w2 = (Returned (Ok tt), w3) ->
  updateLambda conf w3 = (Returned (Ok tt), w4) ->
  is_Some (w_files w4 !! getZipOutputPath conf) ->
  is_Some (w_files w4 !! getBuildOutputPath conf) ->
  processFile file w =
    (Returned tt,
     mkWorld (w_cwd w4) (w_tree w4)
       (delete (getBuildOutputPath conf) (delete (getZipOutputPath conf) (w_files w4)))
       (w_zip w4) (w_remote w4)
       (w_log w4 ++ [EvRemove (getZipOutputPath conf); EvRemove (getBuildOutputPath conf)])).
Proof.
  intros Hparse Hbuild Hzip Hdeploy [a Ha] [b Hb]. unfold processFile. run.
  rewrite Hparse. simpl. rewrite Hbuild. simpl. rewrite Hzip. simpl.
  rewrite Hdeploy. simpl.
  unfold mustDeleteZipFile, mustDeleteBuildFile, os_Remove. run.
  rewrite Ha. simpl.
  rewrite lookup_delete_ne by apply zip_path_ne_build_path. rewrite Hb. simpl.
  unfold set_files, add_log. simpl. by rewrite <- app_assoc.
Qed.

(** *** The loop *)

(** A descriptor whose processing does not return ends the loop: the
    remaining descriptors are not touched. *)
Lemma range_files_halts file rest w o w' :
  processFile file w = (o, w') ->
  o <> Returned tt ->
  range_files (file :: rest) w = (o, w').
Proof.
  intros Hrun Hne. simpl. proc_unfold. rewrite Hrun.
  destruct o as [[]|msg|c]; done.
Qed.

Lemma range_files_app pre post w :
  range_files (pre ++ post) w =
    match range_files pre w with
    | (Returned _, w1) => range_files post w1
    | other => other
    end.
Proof.
  revert w. induction pre as [|file pre IH]; intros w; simpl; [done|].
  proc_unfold. destruct (processFile file w) as [[[]|msg|c] w1]; [apply IH|done..].
Qed.

(** C7.  When the compiler invocation of a descriptor fails, whatever
    the descriptors before it did and whichever follow: the process
    exits with status 1, and since the descriptor was read it has made
    exactly three calls, the read of the descriptor, the compiler
    invocation and the fatal log entry.  No file is created (so no
    archive), and no call of the deploy step is made. *)
Theorem build_failure_stops_before_packaging file rest w conf w1 e w2 :
  parseFunctionConfig file w = (Returned (Ok conf), w1) ->
  build conf w1 = (Returned (Err e), w2) ->
  exists w' new,
    range_files (file :: rest) w = (Exited 1, w')
    /\ w_log w' = w_log w ++ new
    /\ new = [EvReadFile file;
              EvExec "go" ["build"; "-o"; getBuildOutputPath conf; getFullFilePath conf];
              EvFatal ("error while compiling for config at " +:+ file) e]
    /\ (forall path, EvCreate path ∉ new)
    /\ (forall input, EvUpdateFunctionCode input ∉ new)
    /\ (forall input, EvUpdateFunctionConfiguration input ∉ new)
    /\ w_zip w' = w_zip w.
Proof.
  intros Hparse Hbuild. eexists _, _.
  split.
  { apply range_files_halts; [by eapply processFile_build_failure|done]. }
  rewrite parseFunctionConfig_run in Hparse. injection Hparse as _ <-.
  rewrite build_run in Hbuild. simpl in Hbuild.
  injection Hbuild as _ <-. simpl.
  split; [by rewrite <- !app_assoc|].
  split; [done|].
  repeat split; try done; intros x Hin;
    repeat (apply elem_of_cons in Hin as [Hin|Hin]; [discriminate|]);
    by apply elem_of_nil in Hin.
Qed.

(** C8.  When the processing of a discovered descriptor does not return
    (a stage failed and the process exited, or it panicked), [main]
    ends there with that outcome and in that very world: whatever was
    discovered after it is not parsed, built, packaged or deployed. *)
Theorem main_halts_at_first_failure w currentDir pre file rest w1 o w' :
  w_cwd w = Ok currentDir ->
  Discovery.findFunctionConfigs currentDir (w_tree w) = Returned (Ok (pre ++ file :: rest)) ->
  range_files pre w = (Returned tt, w1) ->
  processFile file w1 = (o, w') ->
  o <> Returned tt ->
  main w = (o, w').
Proof.
  intros Hcwd Hfind Hpre Hrun Hne. unfold main, findFunctionConfigs. run.
  rewrite Hcwd, Hfind. simpl.
  rewrite range_files_app, Hpre. by apply range_files_halts.
Qed.

End PipelineFacts.

(** * Further facts *)

(** ** Base names *)

Lemma append_empty_r (s : string) : s +:+ "" = s.
Proof. induction s as [|c s IH]; [done|]. by rewrite app_String, IH. Qed.

Lemma append_assoc (s t u : string) : (s +:+ t) +:+ u = s +:+ t +:+ u.
Proof. induction s as [|c s IH]; [done|]. by rewrite !app_String, IH. Qed.

Lemma rev_app_append (s t : string) : String.rev_app s t = String.rev s +:+ t.
Proof.
  unfold String.rev. revert t. induction s as [|c s IH]; intros t; simpl; [done|].
  rewrite (IH (String c t)), (IH (String c EmptyString)).
  by rewrite append_assoc.
Qed.

Lemma rev_String (c : ascii) (s : string) :
  String.rev (String c s) = String.rev s +:+ String c EmptyString.
Proof. unfold String.rev at 1. simpl. apply rev_app_append. Qed.

Lemma after_last_slash_plain (n : string) : forall acc,
  has_slash n = false ->
  GoStrings.after_last_slash acc n = String.rev acc +:+ n.
Proof.
  induction n as [|c n IH]; intros acc Hn; simpl.
  - by rewrite append_empty_r.
  - simpl in Hn. destruct (decide (c = "/"%char)) as [|Hc]; [done|].
    destruct n as [|d n].
    + by rewrite rev_String.
    + rewrite (IH _ Hn). by rewrite rev_String, append_assoc.
Qed.

Lemma after_last_slash_String (acc : string) (c d : ascii) (s : string) :
  GoStrings.after_last_slash acc (String c (String d s)) =
    if decide (c = "/"%char) then GoStrings.after_last_slash EmptyString (String d s)
    else GoStrings.after_last_slash (String c acc) (String d s).
Proof. reflexivity. Qed.

Lemma after_last_slash_component (p n : string) : forall acc,
  n <> EmptyString -> has_slash n = false ->
  GoStrings.after_last_slash acc (p +:+ "/" +:+ n) = n.
Proof.
  induction p as [|c p IH]; intros acc Hne Hn.
  - destruct n as [|d n]; [done|].
    change ("" +:+ "/" +:+ String d n) with (String "/" (String d n)).
    rewrite after_last_slash_String, decide_True by done.
    by rewrite after_last_slash_plain.
  - rewrite app_String.
    destruct (p +:+ "/" +:+ n) as [|d r] eqn:Hrest.
    { destruct p; discriminate. }
    rewrite after_last_slash_String.
    destruct (decide (c = "/"%char)); by apply IH.
Qed.

Lemma trim_trailing_plain (n : string) :
  n <> EmptyString -> has_slash n = false -> GoStrings.trim_trailing n = n.
Proof.
  induction n as [|c n IH]; intros Hne Hn; [done|]. simpl in *.
  destruct (decide (c = "/"%char)) as [|Hc]; [done|].
  destruct n as [|d n]; [done|]. by rewrite IH.
Qed.

Lemma trim_trailing_component (p n : string) :
  n <> EmptyString -> has_slash n = false ->
  GoStrings.trim_trailing (p +:+ n) = p +:+ n.
Proof.
  intros Hne Hn. induction p as [|c p IH]; [by apply trim_trailing_plain|].
  rewrite app_String. simpl. rewrite IH.
  destruct (p +:+ n) as [|d r] eqn:Hrest; [|done].
  destruct p; [|discriminate]. by destruct n.
Qed.

Lemma basename_component (p n : string) :
  n <> EmptyString -> has_slash n = false ->
  GoStrings.basename (p +:+ "/" +:+ n) = n.
Proof.
  intros Hne Hn. unfold GoStrings.basename.
  assert (GoStrings.trim_slashes (p +:+ "/" +:+ n) = p +:+ "/" +:+ n) as ->.
  { destruct p as [|c p].
    - change ("" +:+ "/" +:+ n) with (String "/" n). simpl.
      by rewrite trim_trailing_plain.
    - rewrite app_String. simpl. f_equal.
      change (p +:+ "/" +:+ n) with (p +:+ String "/" n).
      assert (p +:+ String "/" n = (p +:+ "/") +:+ n) as ->.
      { clear. induction p as [|c p IH]; [done|]. by rewrite !app_String, IH. }
      by apply trim_trailing_component. }
  by apply after_last_slash_component.
Qed.

(** ** The first instance of the marker *)

Lemma HasPrefix_true (pre : string) : forall s,
  GoStrings.HasPrefix s pre = true -> exists rest, s = pre +:+ rest.
Proof.
  induction pre as [|a pre IH]; intros s Hp.
  - by exists s.
  - destruct s as [|b s]; [done|]. simpl in Hp.
    destruct (decide (a = b)) as [->|]; [|done].
    destruct (IH _ Hp) as [rest ->]. by exists rest.
Qed.

(** An instance of the marker that begins before another one ends
    before it: the marker begins with its only ['/']. *)
Lemma marker_no_overlap_mid (pre post : string) :
  GoStrings.HasPrefix (pre +:+ "/.function.yaml" +:+ post) "/.function.yaml" = true ->
  pre = "" \/ GoStrings.contains pre "/.function.yaml".
Proof.
  intros H.
  destruct pre as [|c pre]; [by left|right].
  do 14 (rewrite app_String in H; simpl in H;
         destruct (decide _) as [<-|]; [|discriminate];
         destruct pre as [|c pre]; [vm_compute in H; discriminate|]).
  rewrite app_String in H; simpl in H. destruct (decide _) as [<-|]; [|discriminate].
  by exists "", pre.
Qed.

Lemma HasPrefix_app (pre rest : string) : GoStrings.HasPrefix (pre +:+ rest) pre = true.
Proof.
  induction pre as [|a pre IH]; [by destruct rest|].
  rewrite app_String. simpl. by rewrite decide_True.
Qed.

Lemma GoStrings_drop_app (pre rest : string) : GoStrings.drop (String.length pre) (pre +:+ rest) = rest.
Proof. induction pre as [|a pre IH]; [done|]. by rewrite app_String. Qed.

Lemma Replace_first_marker (pre post : string) :
  ~ GoStrings.contains pre "/.function.yaml" ->
  GoStrings.Replace 1 "/.function.yaml" "" (pre +:+ "/.function.yaml" +:+ post)
  = pre +:+ post.
Proof.
  induction pre as [|c pre IH]; intros Hfree.
  { change ("" +:+ "/.function.yaml" +:+ post) with (String "/" (".function.yaml" +:+ post)).
    rewrite Replace_1_String.
    change (String "/" (".function.yaml" +:+ post)) with ("/.function.yaml" +:+ post).
    by rewrite HasPrefix_app, GoStrings_drop_app. }
  assert (GoStrings.HasPrefix (String c pre +:+ "/.function.yaml" +:+ post)
            "/.function.yaml" = false) as Hhead.
  { destruct (GoStrings.HasPrefix _ _) eqn:Hp; [|done].
    by destruct (marker_no_overlap_mid _ _ Hp). }
  assert (~ GoStrings.contains pre "/.function.yaml") as Hfree'.
  { intros (pre' & post' & ->). apply Hfree. by exists (String c pre'), post'. }
  rewrite app_String, Replace_1_String, <- app_String, Hhead.
  by rewrite (IH Hfree'), app_String.
Qed.

Lemma Replace_unmarked (s : string) :
  ~ GoStrings.contains s "/.function.yaml" ->
  GoStrings.Replace 1 "/.function.yaml" "" s = s.
Proof.
  induction s as [|c s IH]; intros Hfree; [reflexivity|].
  rewrite Replace_1_String.
  destruct (GoStrings.HasPrefix (String c s) "/.function.yaml") eqn:Hp.
  { destruct (HasPrefix_true _ _ Hp) as [rest Hrest]. exfalso. apply Hfree.
    exists "", rest. by rewrite Hrest. }
  rewrite IH; [done|]. intros (pre' & post' & ->). apply Hfree.
  by exists (String c pre'), post'.
Qed.

Section MoreFacts.
Context {E : Env}.

Ltac run :=
  unfold try, deferred, emit, logrus_Fatalf, logrus_Infof; proc_unfold; simpl.

(** [zipBuild], every path through it. *)
Lemma zipBuild_cases conf w :
  zipBuild conf w =
    match os_Create_refused (getZipOutputPath conf) (w_files w) with
    | Some msg =>
        (Returned (Err (PathError "open" (getZipOutputPath conf) msg)),
         add_log (EvCreate (getZipOutputPath conf)) w)
    | None =>
        let entries :=
          match w_files w !! getBuildOutputPath conf with
          | Some content => [(build_header conf (length content), content)]
          | None => []
          end in
        (Returned (match w_files w !! getBuildOutputPath conf with
                   | Some _ => Ok tt
                   | None => Err (not_exist "open" (getBuildOutputPath conf))
                   end),
         mkWorld (w_cwd w) (w_tree w)
           (<[getZipOutputPath conf := zip_encode entries]> (w_files w))
           (delete (getZipOutputPath conf) (w_zip w))
           (w_remote w)
           (w_log w ++ [EvCreate (getZipOutputPath conf); EvOpen (getBuildOutputPath conf)]))
    end.
Proof.
  destruct (os_Create_refused _ _) as [msg|] eqn:Hcreate.
  - unfold zipBuild, os_Create. run. by rewrite Hcreate.
  - destruct (w_files w !! getBuildOutputPath conf) as [content|] eqn:Hfile.
    + by apply zipBuild_run.
    + unfold zipBuild, os_Create, zip_NewWriter, os_Open, Writer_Close. run.
      rewrite Hcreate. simpl.
      repeat (first [ rewrite lookup_insert_eq
                    | rewrite lookup_insert_ne by apply zip_path_ne_build_path
                    | rewrite Hfile ]; simpl).
      unfold set_zip, set_files, add_log. simpl. do 2 f_equal.
      * by rewrite insert_insert_eq.
      * by rewrite delete_insert_eq.
      * by rewrite <- app_assoc.
Qed.

(** Creating the archive and finding the built file is all that
    [zipBuild] needs, and it always returns. *)
Theorem zipBuild_succeeds_iff conf w :
  (exists r, (zipBuild conf w).1 = Returned r)
  /\ ((zipBuild conf w).1 = Returned (Ok tt)
      <-> os_Create_refused (getZipOutputPath conf) (w_files w) = None
          /\ is_Some (w_files w !! getBuildOutputPath conf)).
Proof.
  rewrite zipBuild_cases.
  destruct (os_Create_refused _ _) as [msg|]; simpl.
  - split; [by eexists|]. split; [done|]. by intros [? _].
  - destruct (w_files w !! getBuildOutputPath conf) as [content|]; simpl.
    + split; [by eexists|]. split; [by eauto|done].
    + split; [by eexists|]. split; [done|]. intros [_ [? ?]]. done.
Qed.

(** [zipBuild] writes to the archive path and nowhere else, whether it
    succeeds or not, and leaves the platform alone. *)
Theorem zipBuild_touches_only_archive conf w :
  (forall p, p <> getZipOutputPath conf ->
             w_files (zipBuild conf w).2 !! p = w_files w !! p)
  /\ w_remote (zipBuild conf w).2 = w_remote w
  /\ uploads (w_log (zipBuild conf w).2) = uploads (w_log w).
Proof.
  rewrite zipBuild_cases.
  destruct (os_Create_refused _ _) as [msg|]; simpl.
  - split; [done|]. split; [done|]. unfold uploads. by rewrite omap_app, app_nil_r.
  - split; [|split; [done|]].
    + intros p Hp. by rewrite lookup_insert_ne.
    + unfold uploads. by rewrite omap_app, app_nil_r.
Qed.


(** For a function name that is not empty and holds no ['/'], the one
    entry of the archive is named like the function. *)
Theorem zipBuild_entry_named conf w content :
  Name conf <> "" ->
  has_slash (Name conf) = false ->
  w_files w !! getBuildOutputPath conf = Some content ->
  os_Create_refused (getZipOutputPath conf) (w_files w) = None ->
  (zipBuild conf w).1 = Returned (Ok tt)
  /\ w_files (zipBuild conf w).2 !! getZipOutputPath conf =
       Some (zip_encode [({| fh_Name := Name conf;
                             fh_Method := 8;
                             fh_UncompressedSize64 := Z.of_nat (length content) |},
                          content)]).
Proof.
  intros Hne Hslash Hfile Hcreate. rewrite zipBuild_cases, Hcreate, Hfile. simpl.
  split; [done|]. rewrite lookup_insert_eq. unfold build_header, getBuildOutputPath.
  by rewrite basename_component.
Qed.

(** [updateLambda], every path through it. *)
Lemma updateLambda_cases conf w :
  updateLambda conf w =
    let w0 := add_log (EvReadFile (getZipOutputPath conf)) w in
    match w_files w !! getZipOutputPath conf with
    | None => (Returned (Err (not_exist "open" (getZipOutputPath conf))), w0)
    | Some data =>
        match session_NewSession with
        | Some _ => (Panicked "session.Must: NewSession failed", w0)
        | None =>
            let r := lambda_UpdateFunctionCode (code_input conf data) (w_remote w) in
            let w1 := set_remote r.2 (add_log (EvUpdateFunctionCode (code_input conf data)) w0) in
            match r.1 with
            | Err e => (Returned (Err e), w1)
            | Ok info =>
                match fc_FunctionName info with
                | None => (Panicked nil_dereference, w1)
                | Some fn =>
                    let w2 := add_log (EvInfo ("updated lambda function " +:+ fn)) w1 in
                    match fc_Handler info with
                    | None => (Panicked nil_dereference, w2)
                    | Some h =>
                        if decide (h = Name conf) then (Returned (Ok tt), w2)
                        else
                          let w3 := add_log (EvUpdateFunctionConfiguration
                                               (configuration_input conf)) w2 in
                          let r2 := lambda_UpdateFunctionConfiguration
                                      (configuration_input conf) (w_remote w3) in
                          match r2.1 with
                          | Err e => (Returned (Err e), set_remote r2.2 w3)
                          | Ok _ =>
                              (Returned (Ok tt),
                               add_log (EvInfo ("updated handler name for lambda " +:+ fn
                                                +:+ " to prevent issues"))
                                 (set_remote r2.2 w3))
                          end
                    end
                end
            end
        end
    end.
Proof.
  cbv zeta.
  destruct (w_files w !! getZipOutputPath conf) as [data|] eqn:Hdata.
  2:{ unfold updateLambda, ioutil_ReadFile. run. by rewrite Hdata. }
  destruct session_NewSession as [e|] eqn:Hsess.
  { unfold updateLambda, ioutil_ReadFile, session_Must_NewSession. run.
    by rewrite Hdata, Hsess. }
  destruct (lambda_UpdateFunctionCode (code_input conf data) (w_remote w))
    as [[info|e] remote] eqn:Hcode; simpl.
  2:{ unfold updateLambda, ioutil_ReadFile, session_Must_NewSession, UpdateFunctionCode. run.
      rewrite Hdata, Hsess. simpl. by rewrite Hcode. }
  destruct (fc_FunctionName info) as [fn|] eqn:Hfn.
  2:{ unfold updateLambda, ioutil_ReadFile, session_Must_NewSession, UpdateFunctionCode. run.
      rewrite Hdata, Hsess. simpl. rewrite Hcode. simpl. by rewrite Hfn. }
  destruct (fc_Handler info) as [h|] eqn:Hh.
  2:{ unfold updateLambda, ioutil_ReadFile, session_Must_NewSession, UpdateFunctionCode. run.
      rewrite Hdata, Hsess. simpl. rewrite Hcode. simpl. by rewrite Hfn, Hh. }
  apply (updateLambda_run conf w data info fn h remote); done.
Qed.

Lemma uploads_app l1 l2 : uploads (l1 ++ l2) = uploads l1 ++ uploads l2.
Proof. apply omap_app. Qed.

Lemma updateLambda_frame conf w :
  w_files (updateLambda conf w).2 = w_files w
  /\ w_zip (updateLambda conf w).2 = w_zip w
  /\ w_tree (updateLambda conf w).2 = w_tree w
  /\ w_cwd (updateLambda conf w).2 = w_cwd w.
Proof.
  rewrite updateLambda_cases. cbv zeta.
  repeat case_match; done.
Qed.

(** [updateLambda] reads the archive and talks to the platform: it
    changes no file, opens no writer and does not look at the tree. *)
Theorem updateLambda_keeps_files conf w :
  w_files (updateLambda conf w).2 = w_files w
  /\ w_zip (updateLambda conf w).2 = w_zip w
  /\ w_tree (updateLambda conf w).2 = w_tree w
  /\ w_cwd (updateLambda conf w).2 = w_cwd w.
Proof. apply updateLambda_frame. Qed.

Lemma updateLambda_uploads conf w data :
  w_files w !! getZipOutputPath conf = Some data ->
  session_NewSession = None ->
  uploads (w_log (updateLambda conf w).2) = uploads (w_log w) ++ [code_input conf data].
Proof.
  intros Hdata Hsess. rewrite updateLambda_cases, Hdata, Hsess. cbv zeta.
  repeat case_match; simpl; rewrite ?uploads_app; simpl; by rewrite ?app_nil_r.
Qed.

Lemma updateLambda_no_session conf w data e :
  w_files w !! getZipOutputPath conf = Some data ->
  session_NewSession = Some e ->
  updateLambda conf w =
    (Panicked "session.Must: NewSession failed",
     add_log (EvReadFile (getZipOutputPath conf)) w).
Proof. intros Hdata Hsess. by rewrite updateLambda_cases, Hdata, Hsess. Qed.

(** Once the archive is read and the session exists, [updateLambda]
    uploads once, whatever the platform answers: the request names the
    function by the configured name and carries the bytes of the archive
    file, nothing else. *)
Theorem updateLambda_uploads_archive conf w data :
  w_files w !! getZipOutputPath conf = Some data ->
  session_NewSession = None ->
  uploads (w_log (updateLambda conf w).2) =
    uploads (w_log w) ++
    [{| ufc_DryRun := None; ufc_FunctionName := Some (Name conf); ufc_Publish := None;
        ufc_RevisionId := None; ufc_S3Bucket := None; ufc_S3Key := None;
        ufc_S3ObjectVersion := None; ufc_ZipFile := Some data |}].
Proof.
  intros Hdata Hsess. by apply updateLambda_uploads.
Qed.

(** The calls of [updateLambda] come in order: nothing is uploaded unless
    the archive was read and the session created, and a configuration
    update is requested only after an upload the platform confirmed with
    a handler other than the configured name. *)
Theorem updateLambda_call_order conf w :
  (uploads (w_log (updateLambda conf w).2) <> uploads (w_log w) ->
     is_Some (w_files w !! getZipOutputPath conf) /\ session_NewSession = None)
  /\ (configuration_requests (w_log (updateLambda conf w).2)
        <> configuration_requests (w_log w) ->
      exists data info h,
        w_files w !! getZipOutputPath conf = Some data
        /\ (lambda_UpdateFunctionCode (code_input conf data) (w_remote w)).1 = Ok info
        /\ fc_Handler info = Some h
        /\ h <> Name conf).
Proof.
  rewrite updateLambda_cases. cbv zeta.
  destruct (w_files w !! getZipOutputPath conf) as [data|] eqn:Hdata.
  2:{ simpl. split; intros Hne; exfalso; apply Hne;
        [unfold uploads | unfold configuration_requests]; by rewrite omap_app, app_nil_r. }
  destruct session_NewSession as [e|] eqn:Hsess.
  { simpl. split; intros Hne; exfalso; apply Hne;
      [unfold uploads | unfold configuration_requests]; by rewrite omap_app, app_nil_r. }
  split; [by eauto|].
  destruct (lambda_UpdateFunctionCode _ _) as [[info|e] remote] eqn:Hcode; simpl.
  2:{ intros Hne; exfalso; apply Hne. rewrite !configuration_requests_app. simpl.
      by rewrite !app_nil_r. }
  destruct (fc_FunctionName info) as [fn|]; simpl.
  2:{ intros Hne; exfalso; apply Hne. rewrite !configuration_requests_app. simpl.
      by rewrite !app_nil_r. }
  destruct (fc_Handler info) as [h|] eqn:Hh; simpl.
  2:{ intros Hne; exfalso; apply Hne. rewrite !configuration_requests_app. simpl.
      by rewrite !app_nil_r. }
  destruct (decide (h = Name conf)) as [Heq|Hneq]; simpl.
  { intros Hne; exfalso; apply Hne. rewrite !configuration_requests_app. simpl.
    by rewrite !app_nil_r. }
  intros _. exists data, info, h. by rewrite Hcode.
Qed.

(** The two deletions, every path through them. *)
Lemma mustDeleteBuildFile_cases conf w :
  mustDeleteBuildFile conf w =
    match w_files w !! getBuildOutputPath conf with
    | Some _ =>
        (Returned tt,
         set_files (delete (getBuildOutputPath conf))
           (add_log (EvRemove (getBuildOutputPath conf)) w))
    | None =>
        (Exited 1,
         add_log (EvFatal ("error while deleting build at " +:+ getBuildOutputPath conf)
                    (not_exist "remove" (getBuildOutputPath conf)))
           (add_log (EvRemove (getBuildOutputPath conf)) w))
    end.
Proof. unfold mustDeleteBuildFile, os_Remove. run. by destruct (w_files w !! _). Qed.

Lemma mustDeleteZipFile_cases conf w :
  mustDeleteZipFile conf w =
    match w_files w !! getZipOutputPath conf with
    | Some _ =>
        (Returned tt,
         set_files (delete (getZipOutputPath conf))
           (add_log (EvRemove (getZipOutputPath conf)) w))
    | None =>
        (Exited 1,
         add_log (EvFatal ("error while deleting build at " +:+ getBuildOutputPath conf)
                    (not_exist "remove" (getZipOutputPath conf)))
           (add_log (EvRemove (getZipOutputPath conf)) w))
    end.
Proof. unfold mustDeleteZipFile, os_Remove. run. by destruct (w_files w !! _). Qed.

(** A parse that returns a record has read the descriptor, no more. *)
Lemma parse_returns file w conf :
  (parseFunctionConfig file w).1 = Returned (Ok conf) ->
  parseFunctionConfig file w = (Returned (Ok conf), add_log (EvReadFile file) w).
Proof.
  rewrite parseFunctionConfig_run. cbv beta iota delta [fst]. by intros ->.
Qed.

(** One descriptor whose parse, build and packaging go well: what is
    left is the deploy step and the deferred deletions. *)
Lemma processFile_after_packaging file w conf content :
  let ran := exec_Run "go" ["build"; "-o"; getBuildOutputPath conf; getFullFilePath conf]
               (w_files w) in
  (parseFunctionConfig file w).1 = Returned (Ok conf) ->
  ran.1 = None ->
  ran.2 !! getBuildOutputPath conf = Some content ->
  os_Create_refused (getZipOutputPath conf) ran.2 = None ->
  processFile file w =
    match updateLambda conf (packaged_world file conf ran.2 content w) with
    | (Returned (Ok _), w4) => (Returned tt, cleaned_world conf w4)
    | (Returned (Err e), w4) =>
        (Exited 1,
         add_log (EvFatal ("error while updating Lambda-Function for config at " +:+ file) e) w4)
    | (Panicked msg, w4) => (Panicked msg, cleaned_world conf w4)
    | (Exited c, w4) => (Exited c, w4)
    end.
Proof.
  intros ran Hparse Hrun Hbin Hcreate.
  apply parse_returns in Hparse.
  unfold processFile. unfold mbind at 1, Proc_bind at 1. rewrite Hparse.
  unfold mbind at 1, Proc_bind at 1. rewrite build_run. cbv zeta.
  change (w_files (add_log (EvReadFile file) w)) with (w_files w). fold ran.
  rewrite Hrun.
  unfold deferred at 1. unfold mbind at 1, Proc_bind at 1.
  rewrite zipBuild_cases. simpl w_files. rewrite Hcreate, Hbin. cbv zeta.
  unfold deferred at 1. unfold mbind at 1, Proc_bind at 1.
  unfold set_files, add_log. simpl.
  replace (mkWorld _ _ _ _ _ _) with (packaged_world file conf ran.2 content w).
  2:{ unfold packaged_world. by rewrite <- !app_assoc. }
  pose proof (updateLambda_frame conf (packaged_world file conf ran.2 content w))
    as (Hfiles & _).
  destruct (updateLambda conf _) as [[[[]|e]|msg|c] w4]; simpl in *.
  - unfold logrus_Fatalf, emit. proc_unfold. simpl.
    rewrite mustDeleteZipFile_cases, Hfiles. simpl. rewrite lookup_insert_eq.
    rewrite mustDeleteBuildFile_cases. simpl. rewrite Hfiles. simpl.
    rewrite lookup_delete_ne by apply zip_path_ne_build_path.
    rewrite lookup_insert_ne by apply zip_path_ne_build_path. rewrite Hbin.
    unfold cleaned_world, set_files, add_log. simpl. rewrite Hfiles. simpl.
    by rewrite <- app_assoc.
  - unfold logrus_Fatalf, emit. proc_unfold. done.
  - rewrite mustDeleteZipFile_cases, Hfiles. simpl. rewrite lookup_insert_eq.
    rewrite mustDeleteBuildFile_cases. simpl. rewrite Hfiles. simpl.
    rewrite lookup_delete_ne by apply zip_path_ne_build_path.
    rewrite lookup_insert_ne by apply zip_path_ne_build_path. rewrite Hbin.
    unfold cleaned_world, set_files, add_log. simpl. rewrite Hfiles. simpl.
    by rewrite <- app_assoc.
  - done.
Qed.

Lemma packaged_world_archive file conf files content w :
  w_files (packaged_world file conf files content w) !! getZipOutputPath conf
  = Some (zip_encode [(build_header conf (length content), content)]).
Proof. apply lookup_insert_eq. Qed.

Lemma uploads_packaged_world file conf files content w :
  uploads (w_log (packaged_world file conf files content w)) = uploads (w_log w).
Proof. simpl. by rewrite uploads_app, app_nil_r. Qed.

Lemma uploads_cleaned_world conf w :
  uploads (w_log (cleaned_world conf w)) = uploads (w_log w).
Proof. simpl. by rewrite uploads_app, app_nil_r. Qed.

(** What is deployed is the archive of what was built: when parse,
    build and packaging go well and the session exists, the run of a
    descriptor uploads exactly once, under the configured name, the
    archive whose one entry is the file the compiler left at the build
    path; this holds whatever the platform answers. *)
Theorem processFile_deploys_built_binary file w conf content :
  let ran := exec_Run "go" ["build"; "-o"; getBuildOutputPath conf; getFullFilePath conf]
               (w_files w) in
  (parseFunctionConfig file w).1 = Returned (Ok conf) ->
  ran.1 = None ->
  ran.2 !! getBuildOutputPath conf = Some content ->
  os_Create_refused (getZipOutputPath conf) ran.2 = None ->
  session_NewSession = None ->
  uploads (w_log (processFile file w).2) =
    uploads (w_log w) ++
    [{| ufc_DryRun := None; ufc_FunctionName := Some (Name conf); ufc_Publish := None;
        ufc_RevisionId := None; ufc_S3Bucket := None; ufc_S3Key := None;
        ufc_S3ObjectVersion := None;
        ufc_ZipFile :=
          Some (zip_encode
                  [({| fh_Name := GoStrings.basename (getBuildOutputPath conf);
                       fh_Method := 8;
                       fh_UncompressedSize64 := Z.of_nat (length content) |}, content)]) |}].
Proof.
  intros ran Hparse Hrun Hbin Hcreate Hsess.
  rewrite (processFile_after_packaging file w conf content) by done. fold ran.
  pose proof (updateLambda_uploads conf (packaged_world file conf ran.2 content w) _
                (packaged_world_archive _ _ _ _ _) Hsess) as Hup.
  rewrite uploads_packaged_world in Hup.
  destruct (updateLambda conf _) as [[[[]|e]|msg|c] w4]; simpl in Hup |- *;
    rewrite ?uploads_app, Hup; simpl; by rewrite ?app_nil_r.
Qed.

(** A panic in the deploy step, unlike an exit, runs the deferred
    deletions: when the session cannot be created after parse, build and
    packaging went well, the closure panics, both temporary files are
    gone, and nothing was uploaded. *)
Theorem processFile_panic_cleans_up file w conf content e :
  let ran := exec_Run "go" ["build"; "-o"; getBuildOutputPath conf; getFullFilePath conf]
               (w_files w) in
  (parseFunctionConfig file w).1 = Returned (Ok conf) ->
  ran.1 = None ->
  ran.2 !! getBuildOutputPath conf = Some content ->
  os_Create_refused (getZipOutputPath conf) ran.2 = None ->
  session_NewSession = Some e ->
  (processFile file w).1 = Panicked "session.Must: NewSession failed"
  /\ w_files (processFile file w).2 !! getBuildOutputPath conf = None
  /\ w_files (processFile file w).2 !! getZipOutputPath conf = None
  /\ uploads (w_log (processFile file w).2) = uploads (w_log w).
Proof.
  intros ran Hparse Hrun Hbin Hcreate Hsess.
  rewrite (processFile_after_packaging file w conf content) by done. fold ran.
  rewrite (updateLambda_no_session _ _ _ e (packaged_world_archive _ _ _ _ _) Hsess).
  split; [done|]. simpl. split; [apply lookup_delete_eq|]. split.
  - rewrite lookup_delete_ne by (intros Heq; by apply (zip_path_ne_build_path conf)).
    apply lookup_delete_eq.
  - rewrite !uploads_app. simpl. by rewrite !app_nil_r.
Qed.

(** Failing stages. *)
Lemma processFile_parse_failure file w e :
  (parseFunctionConfig file w).1 = Returned (Err e) ->
  processFile file w =
    (Exited 1,
     add_log (EvFatal ("error while reading function config at " +:+ file) e)
       (add_log (EvReadFile file) w)).
Proof.
  intros Hparse.
  unfold processFile. unfold mbind at 1, Proc_bind at 1.
  assert (parseFunctionConfig file w = (Returned (Err e), add_log (EvReadFile file) w)) as ->.
  { revert Hparse. rewrite parseFunctionConfig_run. cbv beta iota delta [fst]. by intros ->. }
  done.
Qed.

Lemma processFile_package_failure file w conf w1 w2 e w3 :
  parseFunctionConfig file w = (Returned (Ok conf), w1) ->
  build conf w1 = (Returned (Ok tt), w2) ->
  zipBuild conf w2 = (Returned (Err e), w3) ->
  processFile file w =
    (Exited 1,
     add_log (EvFatal ("error while building function config at " +:+ file) e) w3).
Proof.
  intros Hparse Hbuild Hzip. unfold processFile. run.
  rewrite Hparse. simpl. rewrite Hbuild. simpl. by rewrite Hzip.
Qed.

(** A run of a descriptor that returns went through every stage. *)
Lemma processFile_returned file w w' :
  processFile file w = (Returned tt, w') ->
  exists conf content w4,
    let ran := exec_Run "go" ["build"; "-o"; getBuildOutputPath conf; getFullFilePath conf]
                 (w_files w) in
    (parseFunctionConfig file w).1 = Returned (Ok conf)
    /\ ran.1 = None
    /\ ran.2 !! getBuildOutputPath conf = Some content
    /\ os_Create_refused (getZipOutputPath conf) ran.2 = None
    /\ updateLambda conf (packaged_world file conf ran.2 content w) = (Returned (Ok tt), w4)
    /\ w' = cleaned_world conf w4.
Proof.
  intros Hret.
  pose proof (parseFunctionConfig_run file w) as Hparse.
  set (r := match w_files w !! file with
            | Some data => _
            | None => _
            end) in Hparse.
  destruct r as [conf|e] eqn:Hr.
  2:{ rewrite (processFile_parse_failure file w e) in Hret by (by rewrite Hparse).
      discriminate. }
  exists conf.
  pose proof (build_run conf (add_log (EvReadFile file) w)) as Hbuild. cbv zeta in Hbuild.
  change (w_files (add_log (EvReadFile file) w)) with (w_files w) in Hbuild.
  set (ran := exec_Run "go" _ (w_files w)) in *.
  destruct ran.1 as [e|] eqn:Hran.
  { rewrite (processFile_build_failure file w conf _ e _ Hparse) in Hret
      by exact Hbuild.
    discriminate. }
  pose proof (zipBuild_cases conf
                (set_files (fun _ => ran.2)
                   (add_log (EvExec "go" ["build"; "-o"; getBuildOutputPath conf;
                                          getFullFilePath conf])
                      (add_log (EvReadFile file) w)))) as Hzip.
  simpl w_files in Hzip.
  destruct (os_Create_refused (getZipOutputPath conf) ran.2) as [msg|] eqn:Hcreate.
  { rewrite (processFile_package_failure file w conf _ _ _ _ Hparse) in Hret
      by (first [exact Hbuild | exact Hzip]).
    discriminate. }
  cbv zeta in Hzip.
  destruct (ran.2 !! getBuildOutputPath conf) as [content|] eqn:Hbin.
  2:{ rewrite (processFile_package_failure file w conf _ _ _ _ Hparse) in Hret
        by (first [exact Hbuild | exact Hzip]).
      discriminate. }
  exists content.
  pose proof (processFile_after_packaging file w conf content) as Hafter.
  cbv zeta in Hafter. fold ran in Hafter.
  rewrite Hafter in Hret by (by rewrite ?Hparse). clear Hafter.
  destruct (updateLambda conf _) as [[[[]|e]|msg|c] w4] eqn:Hdeploy; try discriminate.
  exists w4. injection Hret as <-. cbv zeta. fold ran. by rewrite Hparse.
Qed.

(** The converse of the clean-up on success: whenever the run of a
    descriptor returns, the descriptor was parsed and built, neither the
    built file nor the archive exists any more, and every other file is
    as the compiler left it. *)
Theorem processFile_returns_clean file w w' :
  processFile file w = (Returned tt, w') ->
  exists conf,
    let ran := exec_Run "go" ["build"; "-o"; getBuildOutputPath conf; getFullFilePath conf]
                 (w_files w) in
    (parseFunctionConfig file w).1 = Returned (Ok conf)
    /\ ran.1 = None
    /\ w_files w' !! getBuildOutputPath conf = None
    /\ w_files w' !! getZipOutputPath conf = None
    /\ (forall p, p <> getBuildOutputPath conf -> p <> getZipOutputPath conf ->
                  w_files w' !! p = ran.2 !! p).
Proof.
  intros (conf & content & w4 & Hparse & Hran & Hbin & Hcreate & Hdeploy & ->)%processFile_returned.
  exists conf. cbv zeta. split; [done|]. split; [done|].
  pose proof (updateLambda_frame conf (packaged_world file conf
                (exec_Run "go" ["build"; "-o"; getBuildOutputPath conf; getFullFilePath conf]
                   (w_files w)).2 content w)) as (Hfiles & _).
  rewrite Hdeploy in Hfiles. simpl in Hfiles |- *. rewrite Hfiles.
  split; [apply lookup_delete_eq|]. split.
  - rewrite lookup_delete_ne by (intros Heq; by apply (zip_path_ne_build_path conf)).
    apply lookup_delete_eq.
  - intros p Hb Hz. by rewrite !lookup_delete_ne, lookup_insert_ne.
Qed.

Lemma processFile_uploads_one file w w' :
  processFile file w = (Returned tt, w') ->
  exists input, uploads (w_log w') = uploads (w_log w) ++ [input].
Proof.
  intros (conf & content & w4 & Hparse & Hran & Hbin & Hcreate & Hdeploy & ->)%processFile_returned.
  set (ran := exec_Run "go" _ (w_files w)) in *.
  pose proof (packaged_world_archive file conf ran.2 content w) as Harch.
  destruct session_NewSession as [e|] eqn:Hsess.
  { rewrite (updateLambda_no_session _ _ _ e Harch Hsess) in Hdeploy. discriminate. }
  pose proof (updateLambda_uploads conf _ _ Harch Hsess) as Hup.
  rewrite Hdeploy, uploads_packaged_world in Hup. simpl in Hup.
  eexists. by rewrite uploads_cleaned_world, Hup.
Qed.

Lemma range_files_uploads files : forall w w',
  range_files files w = (Returned tt, w') ->
  length (uploads (w_log w')) = (length (uploads (w_log w)) + length files)%nat.
Proof.
  induction files as [|file files IH]; intros w w' Hrun; simpl in Hrun.
  - injection Hrun as <-. simpl. lia.
  - unfold mbind, Proc_bind in Hrun.
    destruct (processFile file w) as [[[]|msg|c] w1] eqn:Hfile; try discriminate.
    destruct (processFile_uploads_one _ _ _ Hfile) as [input Hone].
    rewrite (IH _ _ Hrun), Hone, List.length_app. simpl. lia.
Qed.

(** Discovery as [main] sees it. *)
Lemma findFunctionConfigs_result root tree :
  (Discovery.readable tree = true ->
   Discovery.findFunctionConfigs root tree
   = Returned (Ok (Discovery.marker_paths root tree)))
  /\ (Discovery.readable tree = false ->
      exists op p msg,
        Discovery.findFunctionConfigs root tree = Returned (Err (PathError op p msg))).
Proof.
  split; intros Hr.
  - unfold Discovery.findFunctionConfigs, Discovery.Walk, mbind, Proc_bind.
    by rewrite (walk_readable tree root [] Hr).
  - destruct (walk_unreadable tree root [] Hr) as (op & p & msg & files' & Hwalk).
    unfold Discovery.findFunctionConfigs, Discovery.Walk, mbind, Proc_bind. rewrite Hwalk.
    rewrite decide_False by done. by eexists _, _, _.
Qed.

(** When the walk fails, [main] exits before it reads any descriptor,
    also those the walk had found before the failure. *)
Theorem main_unreadable_tree w currentDir :
  w_cwd w = Ok currentDir ->
  Discovery.readable (w_tree w) = false ->
  exists e,
    main w = (Exited 1, add_log (EvFatal "error while reading function files directory" e) w).
Proof.
  intros Hcwd Hr.
  destruct (findFunctionConfigs_result currentDir (w_tree w)) as [_ Herr].
  destruct (Herr Hr) as (op & p & msg & Hfind).
  exists (PathError op p msg). unfold main, findFunctionConfigs.
  unfold logrus_Fatalf, emit. proc_unfold. by rewrite Hcwd, Hfind.
Qed.

(** A tree without descriptors: [main] returns and has done nothing. *)
Theorem main_no_descriptors w currentDir :
  w_cwd w = Ok currentDir ->
  Discovery.readable (w_tree w) = true ->
  (forall pn, pn ∈ Discovery.entries currentDir (w_tree w) -> pn.2 <> ".function.yaml") ->
  main w = (Returned tt, w).
Proof.
  intros Hcwd Hr Hnone.
  destruct (findFunctionConfigs_result currentDir (w_tree w)) as [Hfind _].
  specialize (Hfind Hr).
  assert (Discovery.marker_paths currentDir (w_tree w) = []) as Hempty.
  { unfold Discovery.marker_paths.
    induction (Discovery.entries currentDir (w_tree w)) as [|pn l IHl]; [done|].
    rewrite filter_cons_False.
    - apply IHl. intros pn' Hin. apply Hnone. by right.
    - apply Hnone. by left. }
  unfold main, findFunctionConfigs. proc_unfold. by rewrite Hcwd, Hfind, Hempty.
Qed.

(** A run of [main] that returns found the working directory, could read
    the whole tree, and uploaded once for every entry named
    [.function.yaml]. *)
Theorem main_returns_deploys_each w w' :
  main w = (Returned tt, w') ->
  exists currentDir,
    w_cwd w = Ok currentDir
    /\ Discovery.readable (w_tree w) = true
    /\ length (uploads (w_log w')) =
         (length (uploads (w_log w))
          + length (filter Discovery.is_marker
                      (Discovery.entries currentDir (w_tree w))))%nat.
Proof.
  unfold main, findFunctionConfigs, logrus_Fatalf, emit. proc_unfold.
  destruct (w_cwd w) as [currentDir|e] eqn:Hcwd; [|discriminate].
  intros Hrun. exists currentDir. split; [done|].
  destruct (findFunctionConfigs_result currentDir (w_tree w)) as [Hfind Herr].
  destruct (Discovery.readable (w_tree w)) eqn:Hr.
  - split; [done|]. rewrite (Hfind eq_refl) in Hrun.
    rewrite (range_files_uploads _ _ _ Hrun). unfold Discovery.marker_paths.
    by rewrite length_fmap.
  - destruct (Herr eq_refl) as (op & p & msg & Hf). rewrite Hf in Hrun. discriminate.
Qed.

(** [Path] is the path of the descriptor without the first instance of
    [/.function.yaml], whatever follows that instance. *)
Theorem parseFunctionConfig_Path_first_instance pre post w conf :
  ~ GoStrings.contains pre "/.function.yaml" ->
  (parseFunctionConfig (pre +:+ "/.function.yaml" +:+ post) w).1 = Returned (Ok conf) ->
  Path conf = pre +:+ post.
Proof.
  intros Hfree. rewrite parseFunctionConfig_run. cbv beta iota delta [fst].
  destruct (w_files w !! _) as [data|]; [|discriminate].
  destruct (yaml_Unmarshal data zero_functionConfig) as [function|e]; [|discriminate].
  intros [= <-]. cbv beta iota delta [Path]. by apply Replace_first_marker.
Qed.

(** A file that is parsed under another name keeps its whole path as
    [Path]: nothing is cut when [/.function.yaml] does not occur. *)
Theorem parseFunctionConfig_Path_unmarked path w conf :
  ~ GoStrings.contains path "/.function.yaml" ->
  (parseFunctionConfig path w).1 = Returned (Ok conf) ->
  Path conf = path.
Proof.
  intros Hfree. rewrite parseFunctionConfig_run. cbv beta iota delta [fst].
  destruct (w_files w !! _) as [data|]; [|discriminate].
  destruct (yaml_Unmarshal data zero_functionConfig) as [function|e]; [|discriminate].
  intros [= <-]. cbv beta iota delta [Path]. by apply Replace_unmarked.
Qed.

(** When the archive file cannot be created, the process exits with the
    files as the compiler left them: the deferred deletion of the built
    file does not run. *)
Theorem processFile_archive_refused file w conf msg :
  let ran := exec_Run "go" ["build"; "-o"; getBuildOutputPath conf; getFullFilePath conf]
               (w_files w) in
  (parseFunctionConfig file w).1 = Returned (Ok conf) ->
  ran.1 = None ->
  os_Create_refused (getZipOutputPath conf) ran.2 = Some msg ->
  (processFile file w).1 = Exited 1
  /\ w_files (processFile file w).2 = ran.2
  /\ w_log (processFile file w).2 =
       w_log w ++
       [EvReadFile file;
        EvExec "go" ["build"; "-o"; getBuildOutputPath conf; getFullFilePath conf];
        EvCreate (getZipOutputPath conf);
        EvFatal ("error while building function config at " +:+ file)
          (PathError "open" (getZipOutputPath conf) msg)].
Proof.
  intros ran Hparse Hran Hcreate. apply parse_returns in Hparse.
  pose proof (build_run conf (add_log (EvReadFile file) w)) as Hbuild. cbv zeta in Hbuild.
  change (w_files (add_log (EvReadFile file) w)) with (w_files w) in Hbuild.
  fold ran in Hbuild. rewrite Hran in Hbuild.
  pose proof (zipBuild_cases conf
                (set_files (fun _ => ran.2)
                   (add_log (EvExec "go" ["build"; "-o"; getBuildOutputPath conf;
                                          getFullFilePath conf])
                      (add_log (EvReadFile file) w)))) as Hzip.
  simpl w_files in Hzip. rewrite Hcreate in Hzip.
  rewrite (processFile_package_failure file w conf _ _ _ _ Hparse Hbuild Hzip). simpl.
  split; [done|]. split; [done|]. by rewrite <- !app_assoc.
Qed.

End MoreFacts.

(** ** The shape of discovered paths *)

Section ShapeFacts.
Import Discovery.



End ShapeFacts.

(** ** Runs on the stand-in *)

Import Demo.
#[local] Existing Instance Demo.env.

(** The reader of the stand-in codec inverts its writer. *)
Lemma undigits_digits p : undigits (digits p) = p.
Proof. induction p as [p IH|p IH|]; simpl; by rewrite ?IH. Qed.

Lemma zip_decode_encode entries : zip_decode (zip_encode entries) = Some entries.
Proof. unfold zip_decode, zip_encode. rewrite undigits_digits. apply decode_encode. Qed.

(** The example of the specification: a descriptor with [name: foo]
    and [fileName: foo.go] at [/a/b/.function.yaml], here [/srv/fn]. *)
Example parse_example :
  (parseFunctionConfig "/srv/fn/.function.yaml" unknown_function).1 = Returned (Ok foo_conf).
Proof. vm_compute. reflexivity. Qed.

(** A descriptor without [name] and with a key the record does not
    have, and one whose [name] is a sequence. *)
Example unmarshal_missing_name :
  yaml_Unmarshal (bytes "{fileName: foo.go, runtime: [go1.x]}") zero_functionConfig
  = Ok {| Name := ""; FileName := "foo.go"; Path := "" |}.
Proof. vm_compute. reflexivity. Qed.

Example unmarshal_wrong_shape :
  yaml_Unmarshal (bytes "{name: [foo]}") zero_functionConfig
  = Err (YamlError "cannot unmarshal !!seq into string").
Proof. vm_compute. reflexivity. Qed.

(** A run in which every stage succeeds leaves the tree as it found it. *)
Example run_deployed :
  let final := main (deployed "foo") in
  final.1 = Returned tt /\ w_files final.2 = w_files (deployed "foo").
Proof. vm_compute. split; reflexivity. Qed.

(** C1.  The platform does not know the function, so the deploy step
    fails: the process exits with status 1, nothing was removed, and the
    built file and the archive are still in place beside the descriptor
    and its source. *)
Theorem cleanup_skipped_when_deploy_fails :
  let final := main unknown_function in
  final.1 = Exited 1
  /\ w_files final.2 !! "/srv/fn/foo" = Some binary
  /\ w_files final.2 !! "/srv/fn/foo.zip" = Some archive
  /\ (forall path, EvRemove path ∉ w_log final.2).
Proof.
  split; [by vm_compute|]. split; [by vm_compute|]. split; [by vm_compute|].
  intros path Hin. vm_compute in Hin.
  repeat (apply elem_of_cons in Hin as [Hin|Hin]; [discriminate|]).
  by apply elem_of_nil in Hin.
Qed.

(** C2.  A descriptor in the directory [/a/.function.yaml.d]: the first
    instance of [/.function.yaml] in its path is not the trailing one,
    and [Path] is not the containing directory. *)
Theorem parse_directory_is_first_occurrence :
  let dir := "/a/.function.yaml.d" in
  exists conf,
    (parseFunctionConfig (Discovery.Join dir ".function.yaml") marker_like_directory).1
      = Returned (Ok conf)
    /\ Path conf = "/a.d/.function.yaml"
    /\ Path conf <> dir.
Proof. eexists. split; [by vm_compute|]. by split. Qed.

(** *** The theorems at concrete inputs *)

(** The platform reports the handler [main] for the function [foo]. *)
Lemma updateLambda_configuration_calls_witness :
  let issued := configuration_requests (w_log (updateLambda foo_conf (packaged "main")).2) in
  ("main" = Name foo_conf -> issued = configuration_requests (w_log (packaged "main")))
  /\ ("main" <> Name foo_conf ->
      exists req, issued = configuration_requests (w_log (packaged "main")) ++ [req]
                  /\ ufg_Handler req = Some (Name foo_conf)).
Proof.
  apply (updateLambda_configuration_calls foo_conf (packaged "main") archive
           {| fc_FunctionName := Some "foo"; fc_Handler := Some "main" |}
           "foo" "main" {[ "foo" := "main" ]});
    vm_compute; reflexivity.
Defined.

(** The request issued in that run. *)
Lemma updateLambda_configuration_request_witness :
  exists req,
    configuration_requests (w_log (updateLambda foo_conf (packaged "main")).2)
      = configuration_requests (w_log (packaged "main")) ++ [req]
    /\ ufg_FunctionName req = None
    /\ req = {| ufg_DeadLetterConfig := None; ufg_Description := None;
                ufg_Environment := None; ufg_FunctionName := None;
                ufg_Handler := Some (Name foo_conf); ufg_KMSKeyArn := None;
                ufg_Layers := None; ufg_MemorySize := None; ufg_RevisionId := None;
                ufg_Role := None; ufg_Runtime := None; ufg_Timeout := None;
                ufg_TracingConfig := None; ufg_VpcConfig := None |}.
Proof.
  apply (updateLambda_configuration_request foo_conf (packaged "main") archive
           {| fc_FunctionName := Some "foo"; fc_Handler := Some "main" |}
           "foo" "main" {[ "foo" := "main" ]});
    [vm_compute; reflexivity..|discriminate].
Defined.

(** The tree with the descriptors [/srv/a] and [/srv/b]. *)
Lemma findFunctionConfigs_exact_witness :
  exists files,
    Discovery.findFunctionConfigs "/srv" (w_tree missing_source) = Returned (Ok files)
    /\ files = (filter Discovery.is_marker
                  (Discovery.entries "/srv" (w_tree missing_source))).*1
    /\ (forall p, p ∈ files <->
                  (p, ".function.yaml") ∈ Discovery.entries "/srv" (w_tree missing_source))
    /\ length files =
         length (filter Discovery.is_marker (Discovery.entries "/srv" (w_tree missing_source)))
    /\ ((forall pn, pn ∈ Discovery.entries "/srv" (w_tree missing_source) ->
                    pn.2 <> ".function.yaml") -> files = []).
Proof. apply (findFunctionConfigs_exact "/srv" (w_tree missing_source)). reflexivity. Defined.

(** Packaging the binary of [/srv/fn] with the stand-in codec. *)
Lemma zipBuild_roundtrip_witness :
  exists w' archive hdr body,
    zipBuild foo_conf built = (Returned (Ok tt), w')
    /\ w_files w' !! getZipOutputPath foo_conf = Some archive
    /\ zip_decode archive = Some [(hdr, body)]
    /\ body = binary
    /\ fh_Name hdr = GoStrings.basename (getBuildOutputPath foo_conf)
    /\ fh_Method hdr = 8
    /\ w_files w' !! getBuildOutputPath foo_conf = Some binary.
Proof.
  apply (zipBuild_roundtrip zip_decode foo_conf built binary zip_decode_encode);
    vm_compute; reflexivity.
Defined.

(** The source file of [/srv/a] is missing, so its build fails. *)
Lemma build_failure_stops_before_packaging_witness :
  let file := "/srv/a/.function.yaml" in
  let conf := {| Name := "foo"; FileName := "foo.go"; Path := "/srv/a" |} in
  let e := ExecError "exit status 1" in
  exists w' new,
    range_files [file; "/srv/b/.function.yaml"] missing_source = (Exited 1, w')
    /\ w_log w' = w_log missing_source ++ new
    /\ new = [EvReadFile file;
              EvExec "go" ["build"; "-o"; getBuildOutputPath conf; getFullFilePath conf];
              EvFatal ("error while compiling for config at " +:+ file) e]
    /\ (forall path, EvCreate path ∉ new)
    /\ (forall input, EvUpdateFunctionCode input ∉ new)
    /\ (forall input, EvUpdateFunctionConfiguration input ∉ new)
    /\ w_zip w' = w_zip missing_source.
Proof.
  intros file conf e.
  apply (build_failure_stops_before_packaging file ["/srv/b/.function.yaml"] missing_source
           conf (add_log (EvReadFile file) missing_source) e
           (add_log (EvExec "go" ["build"; "-o"; "/srv/a/foo"; "/srv/a/foo.go"])
              (add_log (EvReadFile file) missing_source)));
    vm_compute; reflexivity.
Defined.

(** The same failure seen from [main]: [/srv/b] is never read. *)
Lemma main_halts_at_first_failure_witness :
  let file := "/srv/a/.function.yaml" in
  main missing_source =
    (Exited 1,
     add_log (EvFatal ("error while compiling for config at " +:+ file)
                (ExecError "exit status 1"))
       (add_log (EvExec "go" ["build"; "-o"; "/srv/a/foo"; "/srv/a/foo.go"])
          (add_log (EvReadFile file) missing_source))).
Proof.
  intros file.
  apply (main_halts_at_first_failure missing_source "/srv" [] file
           ["/srv/b/.function.yaml"] missing_source);
    [vm_compute; reflexivity.. | discriminate].
Defined.

(** The descriptor of [/srv/fn]. *)
Lemma parse_decode_errors_witness :
  let path := "/srv/fn/.function.yaml" in
  let w := unknown_function in
  ((exists msg, (parseFunctionConfig path w).1 = Returned (Err (YamlError msg)))
   <-> ((exists msg, yaml_parse descriptor = inl msg)
        \/ (exists doc, yaml_parse descriptor = inr doc /\ descriptor_shape doc = false)))
  /\ (forall kvs,
        yaml_parse descriptor = inr (YMap kvs) ->
        descriptor_shape (YMap kvs) = true ->
        exists conf,
          (parseFunctionConfig path w).1 = Returned (Ok conf)
          /\ Name conf = field_value "name" kvs
          /\ FileName conf = field_value "fileName" kvs
          /\ ("name" ∉ kvs.*1 -> Name conf = "")
          /\ ("fileName" ∉ kvs.*1 -> FileName conf = "")).
Proof.
  intros path w.
  apply (parse_decode_errors path w descriptor). vm_compute. reflexivity.
Defined.

(** A descriptor in [/srv/fn]: the directory is free of the marker. *)
Lemma parseFunctionConfig_directory_witness :
  Path foo_conf = "/srv/fn".
Proof.
  apply (parseFunctionConfig_directory "/srv/fn" unknown_function foo_conf).
  - intros (pre & post & Heq). apply (f_equal String.length) in Heq.
    rewrite !length_app in Heq. simpl in Heq. lia.
  - vm_compute. reflexivity.
Defined.

(** Every stage succeeds in [/srv/fn]: both files are removed, the
    archive first. *)
Lemma processFile_success_witness :
  let file := "/srv/fn/.function.yaml" in
  let w := deployed "foo" in
  let w1 := (parseFunctionConfig file w).2 in
  let w2 := (build foo_conf w1).2 in
  let w3 := (zipBuild foo_conf w2).2 in
  let w4 := (updateLambda foo_conf w3).2 in
  processFile file w =
    (Returned tt,
     mkWorld (w_cwd w4) (w_tree w4)
       (delete (getBuildOutputPath foo_conf) (delete (getZipOutputPath foo_conf) (w_files w4)))
       (w_zip w4) (w_remote w4)
       (w_log w4 ++ [EvRemove (getZipOutputPath foo_conf);
                     EvRemove (getBuildOutputPath foo_conf)])).
Proof.
  intros file w w1 w2 w3 w4.
  apply (processFile_success file w foo_conf w1 w2 w3 w4);
    [vm_compute; reflexivity .. | vm_compute; eexists; reflexivity
     | vm_compute; eexists; reflexivity].
Defined.

(** The platform does not know [foo]: the deploy step fails and the
    process exits in the world that step left. *)
Lemma processFile_deploy_failure_witness :
  let file := "/srv/fn/.function.yaml" in
  let w := unknown_function in
  let w1 := (parseFunctionConfig file w).2 in
  let w2 := (build foo_conf w1).2 in
  let w3 := (zipBuild foo_conf w2).2 in
  let w4 := (updateLambda foo_conf w3).2 in
  processFile file w =
    (Exited 1,
     add_log (EvFatal ("error while updating Lambda-Function for config at " +:+ file)
                (AwsError "ResourceNotFoundException")) w4).
Proof.
  intros file w w1 w2 w3 w4.
  apply (processFile_deploy_failure file w foo_conf w1 w2 w3
           (AwsError "ResourceNotFoundException") w4);
    vm_compute; reflexivity.
Defined.

(** A root whose [Lstat] fails. *)
Lemma findFunctionConfigs_unreadable_witness :
  exists e, Discovery.findFunctionConfigs "/gone"
              (Discovery.Broken "gone" "no such file or directory") = Returned (Err e).
Proof. apply findFunctionConfigs_unreadable. reflexivity. Defined.

(** A string that contains another is at least as long. *)
Lemma contains_length (s sub : string) :
  GoStrings.contains s sub -> (String.length sub <= String.length s)%nat.
Proof. intros (pre & post & ->). rewrite !length_app. lia. Qed.

(** *** The further facts at concrete inputs *)


(** Packaging the binary of [foo]. *)
Lemma zipBuild_entry_named_witness :
  (zipBuild foo_conf built).1 = Returned (Ok tt)
  /\ w_files (zipBuild foo_conf built).2 !! getZipOutputPath foo_conf =
       Some (Demo.zip_encode
               [({| fh_Name := Name foo_conf;
                    fh_Method := 8;
                    fh_UncompressedSize64 := Z.of_nat (length binary) |}, binary)]).
Proof.
  apply (zipBuild_entry_named foo_conf built binary);
    [discriminate | reflexivity | vm_compute; reflexivity | vm_compute; reflexivity].
Defined.

(** Deploying the archive of [foo]. *)
Lemma updateLambda_uploads_archive_witness :
  uploads (w_log (updateLambda foo_conf (packaged "foo")).2) =
    uploads (w_log (packaged "foo")) ++
    [{| ufc_DryRun := None; ufc_FunctionName := Some (Name foo_conf); ufc_Publish := None;
        ufc_RevisionId := None; ufc_S3Bucket := None; ufc_S3Key := None;
        ufc_S3ObjectVersion := None; ufc_ZipFile := Some archive |}].
Proof.
  apply (updateLambda_uploads_archive foo_conf (packaged "foo") archive);
    vm_compute; reflexivity.
Defined.

(** The descriptor of [/srv/fn], on a platform that does not know [foo]. *)
Lemma processFile_deploys_built_binary_witness :
  uploads (w_log (processFile "/srv/fn/.function.yaml" unknown_function).2) =
    uploads (w_log unknown_function) ++
    [{| ufc_DryRun := None; ufc_FunctionName := Some (Name foo_conf); ufc_Publish := None;
        ufc_RevisionId := None; ufc_S3Bucket := None; ufc_S3Key := None;
        ufc_S3ObjectVersion := None;
        ufc_ZipFile :=
          Some (Demo.zip_encode
                  [({| fh_Name := GoStrings.basename (getBuildOutputPath foo_conf);
                       fh_Method := 8;
                       fh_UncompressedSize64 := Z.of_nat (length binary) |}, binary)]) |}].
Proof.
  apply (processFile_deploys_built_binary "/srv/fn/.function.yaml" unknown_function
           foo_conf binary); vm_compute; reflexivity.
Defined.

(** The descriptor of [/srv/fn] without credentials. *)
Lemma processFile_panic_cleans_up_witness :
  (@processFile DemoMore.env_no_session "/srv/fn/.function.yaml" DemoMore.no_session).1
    = Panicked "session.Must: NewSession failed"
  /\ w_files (@processFile DemoMore.env_no_session "/srv/fn/.function.yaml"
                DemoMore.no_session).2 !! getBuildOutputPath foo_conf = None
  /\ w_files (@processFile DemoMore.env_no_session "/srv/fn/.function.yaml"
                DemoMore.no_session).2 !! getZipOutputPath foo_conf = None
  /\ uploads (w_log (@processFile DemoMore.env_no_session "/srv/fn/.function.yaml"
                       DemoMore.no_session).2)
     = uploads (w_log DemoMore.no_session).
Proof.
  apply (@processFile_panic_cleans_up DemoMore.env_no_session
           "/srv/fn/.function.yaml" DemoMore.no_session foo_conf binary
           (AwsError "NoCredentialProviders")); vm_compute; reflexivity.
Defined.

(** The descriptor of [/srv/fn], deployed with the handler it names. *)
Lemma processFile_returns_clean_witness :
  exists conf,
    let w := deployed "foo" in
    let w' := (processFile "/srv/fn/.function.yaml" (deployed "foo")).2 in
    let ran := Demo.exec_Run "go"
                 ["build"; "-o"; getBuildOutputPath conf; getFullFilePath conf]
                 (w_files w) in
    (parseFunctionConfig "/srv/fn/.function.yaml" w).1 = Returned (Ok conf)
    /\ ran.1 = None
    /\ w_files w' !! getBuildOutputPath conf = None
    /\ w_files w' !! getZipOutputPath conf = None
    /\ (forall p, p <> getBuildOutputPath conf -> p <> getZipOutputPath conf ->
                  w_files w' !! p = ran.2 !! p).
Proof.
  assert ((processFile "/srv/fn/.function.yaml" (deployed "foo")).1 = Returned tt) as Hret
    by (vm_compute; reflexivity).
  destruct (processFile "/srv/fn/.function.yaml" (deployed "foo")) as [o w'] eqn:Hrun.
  simpl in Hret. subst o.
  exact (processFile_returns_clean "/srv/fn/.function.yaml" (deployed "foo") w' Hrun).
Defined.

(** A tree with a descriptor and an entry that cannot be read. *)
Lemma main_unreadable_tree_witness :
  exists e,
    main DemoMore.half_read
    = (Exited 1,
       add_log (EvFatal "error while reading function files directory" e) DemoMore.half_read).
Proof.
  apply (main_unreadable_tree DemoMore.half_read "/srv"); vm_compute; reflexivity.
Defined.

(** A tree without a descriptor. *)
Lemma main_no_descriptors_witness :
  main DemoMore.no_descriptors = (Returned tt, DemoMore.no_descriptors).
Proof.
  apply (main_no_descriptors DemoMore.no_descriptors "/srv");
    [vm_compute; reflexivity | vm_compute; reflexivity |].
  intros pn Hin. vm_compute in Hin.
  repeat (apply elem_of_cons in Hin as [->|Hin]; [discriminate|]).
  by apply elem_of_nil in Hin.
Defined.

(** One descriptor, deployed with the handler it names. *)
Lemma main_returns_deploys_each_witness :
  exists currentDir,
    let w := deployed "foo" in
    let w' := (main (deployed "foo")).2 in
    w_cwd w = Ok currentDir
    /\ Discovery.readable (w_tree w) = true
    /\ length (uploads (w_log w')) =
         (length (uploads (w_log w))
          + length (filter Discovery.is_marker
                      (Discovery.entries currentDir (w_tree w))))%nat.
Proof.
  assert ((main (deployed "foo")).1 = Returned tt) as Hret by (vm_compute; reflexivity).
  destruct (main (deployed "foo")) as [o w'] eqn:Hrun.
  simpl in Hret. subst o.
  exact (main_returns_deploys_each (deployed "foo") w' Hrun).
Defined.

(** The descriptor below [/a/.function.yaml.d]. *)
Lemma parseFunctionConfig_Path_first_instance_witness :
  Path {| Name := "foo"; FileName := "foo.go"; Path := "/a.d/.function.yaml" |}
  = "/a" +:+ ".d/.function.yaml".
Proof.
  apply (parseFunctionConfig_Path_first_instance "/a" ".d/.function.yaml"
           marker_like_directory).
  - intros Hin%contains_length. vm_compute in Hin. lia.
  - vm_compute; reflexivity.
Defined.

(** A descriptor text read from a file of another name. *)
Lemma parseFunctionConfig_Path_unmarked_witness :
  Path {| Name := "foo"; FileName := "foo.go"; Path := "/srv/f.yaml" |} = "/srv/f.yaml".
Proof.
  apply (parseFunctionConfig_Path_unmarked "/srv/f.yaml" DemoMore.no_descriptors).
  - intros Hin%contains_length. vm_compute in Hin. lia.
  - vm_compute; reflexivity.
Defined.

(** The descriptor of [/srv/fn] in a directory where nothing can be
    created. *)
Lemma processFile_archive_refused_witness :
  (@processFile DemoMore.env_read_only "/srv/fn/.function.yaml" DemoMore.read_only).1
    = Exited 1
  /\ w_files (@processFile DemoMore.env_read_only "/srv/fn/.function.yaml"
                DemoMore.read_only).2
     = (Demo.exec_Run "go"
          ["build"; "-o"; getBuildOutputPath foo_conf; getFullFilePath foo_conf]
          (w_files DemoMore.read_only)).2
  /\ w_log (@processFile DemoMore.env_read_only "/srv/fn/.function.yaml"
              DemoMore.read_only).2 =
       w_log DemoMore.read_only ++
       [EvReadFile "/srv/fn/.function.yaml";
        EvExec "go" ["build"; "-o"; getBuildOutputPath foo_conf; getFullFilePath foo_conf];
        EvCreate (getZipOutputPath foo_conf);
        EvFatal ("error while building function config at " +:+ "/srv/fn/.function.yaml")
          (PathError "open" (getZipOutputPath foo_conf) "permission denied")].
Proof.
  apply (@processFile_archive_refused DemoMore.env_read_only
           "/srv/fn/.function.yaml" DemoMore.read_only foo_conf "permission denied");
    vm_compute; reflexivity.
Defined.

